(** * PlaceFields: spatial tuning of neurons

    A shallow embedding of [imaging/code/scratch/PlaceFields.py] and the
    properties of its specification.

    The Python code is written against numpy arrays and is generic in the
    element type.  It is embedded once, over an interface [Numeric] of the
    scalar operations the code performs, and read at [B64], IEEE-754
    binary64 as numpy's [float64] has it (Rocq's [SpecFloat] with 53 bits of
    precision), where not-a-number, the infinities and the signed zeros are
    values and every operation rounds.

    Arrays are lists: a one-dimensional array as it is and a two-dimensional
    one by its rows laid end to end, which is what [flatten] produces. *)

From Stdlib Require Import List ZArith Bool Arith Lia Permutation.
From Stdlib Require Import Reals Lra.
From Stdlib Require Import SpecFloat.
Import ListNotations.

Set Implicit Arguments.

(** ** Exceptions and results *)

(** The exceptions the modelled code can raise. *)
Inductive exn : Type :=
| ValueError   (* empty random range, [min]/[argmax] of an empty sequence,
                  shapes that do not broadcast *)
| IndexError.  (* index out of range, boolean mask of the wrong length *)

Inductive result (A : Type) : Type :=
| Ok (a : A)
| Raise (e : exn).

Arguments Ok {A} a.
Arguments Raise {A} e.

Definition rbind {A B} (m : result A) (k : A -> result B) : result B :=
  match m with
  | Ok a => k a
  | Raise e => Raise e
  end.

Declare Scope result_scope.
Delimit Scope result_scope with result.
Notation "x <- m ;; k" := (rbind m (fun x => k))
  (at level 61, m at next level, right associativity) : result_scope.
Notation "' p <- m ;; k" := (rbind m (fun p => k))
  (at level 61, p pattern, m at next level, right associativity) : result_scope.

(** ** The scalar interface *)

(** The operations of numpy's scalars that the code uses.  [nlt a b] is
    [a < b], [nle a b] is [a <= b]; [nof_Z] converts a Python or numpy
    integer. *)
Class Numeric (F : Type) : Type := {
  nzero : F;
  nadd : F -> F -> F;
  nsub : F -> F -> F;
  nmul : F -> F -> F;
  ndiv : F -> F -> F;
  nsqrt : F -> F;
  nlt : F -> F -> bool;
  nle : F -> F -> bool;
  nisnan : F -> bool;
  nof_Z : Z -> F
}.

(** ** numpy and Python primitives on arrays *)

Section Arrays.
Context {F : Type} `{Numeric F}.

(** [a[mask]] with a boolean array [mask]: the entries of [a] at the
    positions where [mask] holds.  numpy raises [IndexError] when the two
    lengths differ. *)
Fixpoint mask_select {A} (a : list A) (mask : list bool) : result (list A) :=
  match a, mask with
  | [], [] => Ok []
  | v :: a', b :: mask' =>
      match mask_select a' mask' with
      | Ok r => Ok (if b then v :: r else r)
      | Raise e => Raise e
      end
  | _, _ => Raise IndexError
  end.

Fixpoint zip_with {A B C} (op : A -> B -> C) (a : list A) (b : list B) : list C :=
  match a, b with
  | v :: a', w :: b' => op v w :: zip_with op a' b'
  | _, _ => []
  end.

(** An element-wise binary operation on two arrays.  Equal shapes combine
    entry by entry, an array of one element is stretched over the other,
    and any other pair of shapes raises [ValueError]. *)
Definition broadcast2 (op : F -> F -> F) (a b : list F) : result (list F) :=
  if Nat.eqb (length a) (length b) then Ok (zip_with op a b)
  else match a, b with
       | [v], _ => Ok (map (op v) b)
       | _, [w] => Ok (map (fun v => op v w) a)
       | _, _ => Raise ValueError
       end.

(** Python's [sum(a)]: the entries added one by one, from left to right,
    starting from the integer 0. *)
Definition py_sum (a : list F) : F := fold_left nadd a nzero.

(** [a > c] for an array [a] and a scalar [c]. *)
Definition np_gt (a : list F) (c : F) : list bool := map (fun v => nlt c v) a.

(** [np.sum] of a boolean array: the number of [True] entries, added up
    one by one. *)
Definition np_sum_bool (m : list bool) : Z :=
  fold_left (fun acc (b : bool) => if b then (acc + 1)%Z else acc) m 0%Z.

Section Reductions.
(** [a.sum()], numpy's reduction by addition.  numpy adds the entries of a
    long array in blocks and pairwise, so the order of the additions, which
    matters in floating point, is not fixed here: the reduction is a
    parameter. *)
Variable array_sum : list F -> F.

(** [np.mean(a)]. *)
Definition np_mean (a : list F) : F :=
  ndiv (array_sum a) (nof_Z (Z.of_nat (length a))).

(** [np.std(a)]: the population standard deviation (no degrees-of-freedom
    correction). *)
Definition np_std (a : list F) : F :=
  let m := np_mean a in
  nsqrt (np_mean (map (fun v => nmul (nsub v m) (nsub v m)) a)).
End Reductions.

(** [np.roll(a, shift)] on a one-dimensional array: entries moved [shift]
    places to the right, those pushed past the end re-entering at the
    front. *)
Definition np_roll {A} (a : list A) (shift : Z) : list A :=
  match length a with
  | O => a
  | S _ as n =>
      let s := Z.to_nat (shift mod Z.of_nat n) in
      skipn (n - s) a ++ firstn (n - s) a
  end.

(** [np.argmax(a)] on floating-point data: the position of the first
    not-a-number if there is one, of the first largest entry otherwise.
    The loop keeps the running maximum [mp] and its position. *)
Fixpoint argmax_loop (a : list F) (i : nat) (mp : F) (max_ind : nat) : nat :=
  match a with
  | [] => max_ind
  | v :: a' =>
      if negb (nle v mp)
      then if nisnan v then i else argmax_loop a' (S i) v i
      else argmax_loop a' (S i) mp max_ind
  end.

Definition np_argmax (a : list F) : result nat :=
  match a with
  | [] => Raise ValueError
  | v :: a' => if nisnan v then Ok 0 else Ok (argmax_loop a' 1 v 0)
  end.

(** Python's [min] and [max] of a sequence. *)
Definition py_min (a : list F) : result F :=
  match a with
  | [] => Raise ValueError
  | v :: a' => Ok (fold_left (fun m w => if nlt w m then w else m) a' v)
  end.

Definition py_max (a : list F) : result F :=
  match a with
  | [] => Raise ValueError
  | v :: a' => Ok (fold_left (fun m w => if nlt m w then w else m) a' v)
  end.

(** [np.diff(a, prepend=0)]. *)
Fixpoint diff_from (prev : F) (a : list F) : list F :=
  match a with
  | [] => []
  | v :: a' => nsub v prev :: diff_from v a'
  end.

Definition np_diff_prepend0 (a : list F) : list F := diff_from nzero a.
End Arrays.

(** ** The spatial information estimator *)

Section SpatialInformation.
Context {F : Type} `{Numeric F}.

(** [a.sum()] and [np.log2]. *)
Variable array_sum : list F -> F.
Variable log2 : F -> F.

Local Open Scope result_scope.

(** [spatial_information(tuning_curve, occupancy)], both arguments
    already flat. *)
Definition spatial_information (tuning_curve occupancy : list F) : result F :=
  (* Only consider activity in visited spatial bins. *)
  let visited := np_gt occupancy nzero in
  tuning_curve' <- mask_select tuning_curve visited ;;
  occupancy' <- mask_select occupancy visited ;;
  (* Find rate and mean rate. *)
  rate <- broadcast2 ndiv tuning_curve' occupancy' ;;
  let mrate := ndiv (array_sum tuning_curve') (array_sum occupancy') in
  (* Get occupancy probability. *)
  let prob := map (fun o => ndiv o (array_sum occupancy')) occupancy' in
  (* Handle log2(0). *)
  let index := np_gt rate nzero in
  prob_i <- mask_select prob index ;;
  rate_i <- mask_select rate index ;;
  (* Spatial information formula. *)
  let ratio := map (fun r => ndiv r mrate) rate_i in
  scaled <- broadcast2 nmul prob_i ratio ;;
  terms <- broadcast2 nmul scaled (map log2 ratio) ;;
  Ok (py_sum terms).
End SpatialInformation.

(** ** The random source *)

(** Python's global generator, as the tape of raw values it will hand out
    and the position reached on it. *)
Record rng : Type := { tape : nat -> Z; cursor : nat }.

(** Computations that may draw random numbers and may raise. *)
Definition M (A : Type) : Type := rng -> result (A * rng).

Definition mret {A} (a : A) : M A := fun g => Ok (a, g).

Definition mbind {A B} (m : M A) (k : A -> M B) : M B :=
  fun g => match m g with
           | Ok (a, g') => k a g'
           | Raise e => Raise e
           end.

Definition lift {A} (r : result A) : M A :=
  fun g => match r with
           | Ok a => Ok (a, g)
           | Raise e => Raise e
           end.

Declare Scope rand_scope.
Delimit Scope rand_scope with rand.
Notation "x <- m ;; k" := (mbind m (fun x => k))
  (at level 61, m at next level, right associativity) : rand_scope.
Notation "' p <- m ;; k" := (mbind m (fun p => k))
  (at level 61, p pattern, m at next level, right associativity) : rand_scope.

(** The generator after one draw. *)
Definition advance (g : rng) : rng := {| tape := tape g; cursor := S (cursor g) |}.

(** [random.randint(a, b)]: an integer [N] with [a <= N <= b], both ends
    included; [ValueError] when the range is empty.  The raw value read from
    the tape is reduced to the [b - a + 1] values of the range. *)
Definition randint (a b : Z) : M Z :=
  fun g =>
    if (b <? a)%Z then Raise ValueError
    else Ok ((a + tape g (cursor g) mod (b - a + 1))%Z, advance g).

(** ** The PlaceFields object *)

Section PlaceFields.
Context {F : Type} `{Numeric F}.

(** The activity matrix [neural_data], of shape [(n, t)]. *)
Record matrix : Type := { rows : list (list F); n_cols : nat }.

Definition get_row (m : matrix) (i : nat) : result (list F) :=
  match nth_error (rows m) i with
  | Some r => Ok r
  | None => Raise IndexError
  end.

(** The bin edges returned by the binning routine. *)
Variable Bins : Type.

(** [CaImaging.Behavior.spatial_bin], the binning routine of another
    package:
    [spatial_bin x y bin_size_cm nbins weights one_dim bins] returns the
    histogram and the bin edges. *)
Variable spatial_bin :
  list F -> list F -> option F -> option nat -> option (list F) -> bool ->
  option Bins -> result (list F * Bins).

(** [a.sum()] and [np.log2]. *)
Variable array_sum : list F -> F.
Variable log2 : F -> F.

(** The entries of [self.data] and [self.meta] that the methods read. *)
Record PlaceFields : Type := {
  data_x : list F;
  data_y : list F;
  data_neural : matrix;
  data_running : list bool;
  data_occupancy_map : list F;
  data_occupancy_bins : Bins;
  data_spatial_info : list F;
  data_placefields_normalized : list (list F);
  meta_linearized : bool;
  meta_bin_size : option F;
  meta_nbins : option nat
}.

Variable self : PlaceFields.

(** [make_occupancy_map(show_plot=False)]. *)
Definition make_occupancy_map : result (list F * Bins) :=
  (xr <- mask_select (data_x self) (data_running self) ;;
   yr <- mask_select (data_y self) (data_running self) ;;
   spatial_bin xr yr (meta_bin_size self) (meta_nbins self) None
               (meta_linearized self) None)%result.

(** The first statement of [make_place_field]: the activity trace that is
    binned. *)
Definition shuffled_trace (neuron : nat) (shuffle : bool) : M (list F) :=
  (if shuffle then
     random_shift <- randint 300 (Z.of_nat (n_cols (data_neural self))) ;;
     trace <- lift (get_row (data_neural self) neuron) ;;
     mret (np_roll trace random_shift)
   else lift (get_row (data_neural self) neuron))%rand.

(** The rest of [make_place_field]: the trace is binned over the running
    samples, with the bin edges of the occupancy map, and on request
    divided by the occupancy map. *)
Definition bin_activity (neural_data : list F) (normalize_by_occ : bool)
  : result (list F) :=
  (xr <- mask_select (data_x self) (data_running self) ;;
   yr <- mask_select (data_y self) (data_running self) ;;
   w <- mask_select neural_data (data_running self) ;;
   '(pf, _) <- spatial_bin xr yr (meta_bin_size self) (meta_nbins self)
                           (Some w) (meta_linearized self)
                           (Some (data_occupancy_bins self)) ;;
   (* Normalize by occupancy. *)
   if normalize_by_occ
   then broadcast2 ndiv pf (data_occupancy_map self)
   else Ok pf)%result.

(** [make_place_field(neuron, show_plot=False, normalize_by_occ, shuffle)]. *)
Definition make_place_field (neuron : nat) (normalize_by_occ shuffle : bool)
  : M (list F) :=
  (neural_data <- shuffled_trace neuron shuffle ;;
   lift (bin_activity neural_data normalize_by_occ))%rand.

(** [make_all_place_fields(normalize)]: one call per row of the activity
    matrix. *)
Fixpoint place_fields_from (neuron count : nat) (normalize : bool)
  : M (list (list F)) :=
  match count with
  | O => mret []
  | S count' =>
      (pf <- make_place_field neuron normalize false ;;
       pfs <- place_fields_from (S neuron) count' normalize ;;
       mret (pf :: pfs))%rand
  end.

Definition make_all_place_fields (normalize : bool) : M (list (list F)) :=
  place_fields_from 0 (length (rows (data_neural self))) normalize.

(** [find_pf_centers()]. *)
Fixpoint argmax_each (pfs : list (list F)) : result (list nat) :=
  match pfs with
  | [] => Ok []
  | pf :: pfs' =>
      (c <- np_argmax pf ;;
       cs <- argmax_each pfs' ;;
       Ok (c :: cs))%result
  end.

Definition find_pf_centers : result (list nat) :=
  argmax_each (data_placefields_normalized self).

(** The loop of [assess_spatial_sig]: [n] shuffled place fields, the
    spatial information of each appended to [shuffled_SIs]. *)
Fixpoint shuffle_loop (neuron n : nat) (shuffled_SIs : list F) : M (list F) :=
  match n with
  | O => mret shuffled_SIs
  | S n' =>
      (shuffled_pf <- make_place_field neuron false true ;;
       si <- lift (spatial_information array_sum log2 shuffled_pf
                                         (data_occupancy_map self)) ;;
       shuffle_loop neuron n' (shuffled_SIs ++ [si]))%rand
  end.

(** One value of the null distribution: the spatial information of the
    trace rolled by an offset the draw can return, binned. *)
Definition null_value (neuron : nat) (s : F) : Prop :=
  exists k trace pf,
    (300 <= k <= Z.of_nat (n_cols (data_neural self)))%Z
    /\ get_row (data_neural self) neuron = Ok trace
    /\ bin_activity (np_roll trace k) false = Ok pf
    /\ spatial_information array_sum log2 pf (data_occupancy_map self) = Ok s.

Definition n_shuffles_default : nat := 500.

(** [assess_spatial_sig(neuron, n_shuffles=500)]; [None] leaves the
    default in place. *)
Definition assess_spatial_sig (neuron : nat) (n_shuffles : option nat)
  : M (F * F) :=
  let n := match n_shuffles with Some n => n | None => n_shuffles_default end in
  (shuffled_SIs <- shuffle_loop neuron n [] ;;
   si <- lift (match nth_error (data_spatial_info self) neuron with
               | Some v => Ok v
               | None => Raise IndexError
               end) ;;
   let p_value := ndiv (nof_Z (np_sum_bool (np_gt shuffled_SIs si)))
                       (nof_Z (Z.of_nat n)) in
   let SI_z := ndiv (nsub si (np_mean array_sum shuffled_SIs))
                    (np_std array_sum shuffled_SIs) in
   mret (p_value, SI_z))%rand.
End PlaceFields.

Arguments matrix F : clear implicits.
Arguments PlaceFields F Bins : clear implicits.

(** ** Construction: running filter and circular coordinates *)

Section Construction.
Context {F : Type} `{Numeric F}.

Local Open Scope result_scope.

(** The Euclidean length of the displacement [(dx, dy)]. *)
Definition euclid (dx dy : F) : F := nsqrt (nadd (nmul dx dx) (nmul dy dy)).

(** Modelled from the spec: the helper [consecutive_dist] of the CaImaging
    package, "consecutive Euclidean distance between successive (x, y)
    samples (first sample distance defined as zero)".  The two coordinate
    arrays must have one length to be stacked into points. *)
Fixpoint dist_from (px py : F) (x y : list F) : list F :=
  match x, y with
  | vx :: x', vy :: y' => euclid (nsub vx px) (nsub vy py) :: dist_from vx vy x' y'
  | _, _ => []
  end.

Definition consecutive_dist (x y : list F) (zero_pad : bool) : result (list F) :=
  if Nat.eqb (length x) (length y) then
    match x, y with
    | vx :: x', vy :: y' =>
        Ok (if zero_pad then nzero :: dist_from vx vy x' y' else dist_from vx vy x' y')
    | _, _ => Ok (if zero_pad then [nzero] else [])
    end
  else Raise ValueError.

Definition velocity_threshold_default : Z := 10.

(** "Compute distance and velocity" in [__init__]: the arrays stored as
    [velocity] and [running].  [None] leaves the default threshold in
    place. *)
Definition init_velocity (t x y : list F) (velocity_threshold : option F)
  : result (list F * list bool) :=
  let threshold := match velocity_threshold with
                   | Some v => v
                   | None => nof_Z velocity_threshold_default
                   end in
  d <- consecutive_dist x y true ;;
  velocity <- broadcast2 ndiv d
                (np_diff_prepend0 (map (fun v => ndiv v (nof_Z 1000)) t)) ;;
  Ok (velocity, np_gt velocity threshold).

(** [a.sum()], [np.pi], [np.arctan2] and [np.mod]. *)
Variable array_sum : list F -> F.
Variable pi : F.
Variable arctan2 : F -> F -> F.
Variable np_mod : F -> F -> F.

(** Modelled from the spec: the helper [cart2pol] of the CaImaging package,
    "a standard polar transform" of [(x, y)] to [(angle, radius)]. *)
Definition cart2pol (x y : list F) : result (list F * list F) :=
  phi <- broadcast2 (fun vx vy => arctan2 vy vx) x y ;;
  rho <- broadcast2 euclid x y ;;
  Ok (phi, rho).

(** "If we're using circular position, convert data to radians" in
    [__init__]: the arrays stored as [x] and [y], and [circle_radius]. *)
Definition init_circular (x y : list F) : result (list F * list F * F) :=
  x_min <- py_min x ;;
  x_max <- py_max x ;;
  y_min <- py_min y ;;
  y_max <- py_max y ;;
  let width := nsub x_max x_min in
  let height := nsub y_max y_min in
  let circle_radius := ndiv (np_mean array_sum [width; height]) (nof_Z 2) in
  let center0 := np_mean array_sum [x_min; x_max] in
  let center1 := np_mean array_sum [y_min; y_max] in
  (* Convert to angles (linear position) and radii (distance from center). *)
  '(angles, radii) <- cart2pol (map (fun v => nsub v center0) x)
                               (map (fun v => nsub v center1) y) ;;
  (* Shift everything so that 12 o'clock (pi/2) is 0. *)
  let angles := map (fun a => nadd a (ndiv pi (nof_Z 2))) angles in
  let x' := map (fun a => np_mod a (nmul (nof_Z 2) pi)) angles in
  let y' := map (fun _ => nzero) x' in
  Ok (x', y', circle_radius).
End Construction.

(** ** Binary64 *)

(** IEEE-754 binary64. *)
Module B64.
Definition prec : Z := 53.
Definition emax : Z := 1024.

Definition is_nan (v : spec_float) : bool :=
  match v with S754_nan => true | _ => false end.

Definition is_inf (v : spec_float) : bool :=
  match v with S754_infinity _ => true | _ => false end.

Definition is_zero (v : spec_float) : bool :=
  match v with S754_zero _ => true | _ => false end.

Definition of_Z (z : Z) : spec_float := binary_normalize prec emax z 0 false.

#[global] Instance numeric : Numeric spec_float := {|
  nzero := S754_zero false;
  nadd := SFadd prec emax;
  nsub := SFsub prec emax;
  nmul := SFmul prec emax;
  ndiv := SFdiv prec emax;
  nsqrt := SFsqrt prec emax;
  nlt := SFltb;
  nle := SFleb;
  nisnan := is_nan;
  nof_Z := of_Z
|}.

(** An entry of an occupancy map: a histogram count, zero or a positive
    finite number. *)
Definition is_count (o : spec_float) : bool :=
  match o with
  | S754_zero _ | S754_finite false _ _ => true
  | _ => false
  end.

(** The position of the first bin with occupancy 0 (the length of the map
    when there is none). *)
Fixpoint first_zero_occupancy (occupancy : list spec_float) : nat :=
  match occupancy with
  | [] => 0
  | o :: occupancy' =>
      if is_zero o then 0 else S (first_zero_occupancy occupancy')
  end.

(** What the raw tuning curve holds in a bin, given the occupancy there: no
    not-a-number, and no activity where no sample fell. *)
Definition raw_bin_ok (a o : spec_float) : Prop :=
  is_nan a = false /\ (is_zero o = true -> is_zero a = true).

(** The sign bit of a number; not-a-number has none here. *)
Definition sign_bit (v : spec_float) : bool :=
  match v with
  | S754_zero s | S754_infinity s | S754_finite s _ _ => s
  | S754_nan => false
  end.

(** C's [fmod(a, b)], which numpy's [np.mod] is built on: the remainder of
    [a] by [b] with the sign of [a].  It is computed on the integers
    [a / 2^e] and [b / 2^e], with [e] the smaller of the two exponents; it
    is exact, so the rounding at the end changes nothing. *)
Definition fmod (a b : spec_float) : spec_float :=
  match a, b with
  | S754_nan, _ | _, S754_nan => S754_nan
  | S754_infinity _, _ => S754_nan
  | _, S754_zero _ => S754_nan
  | S754_zero _, _ => a
  | S754_finite _ _ _, S754_infinity _ => a
  | S754_finite sa ma ea, S754_finite _ mb eb =>
      let e := Z.min ea eb in
      let r := ((Zpos ma * 2 ^ (ea - e)) mod (Zpos mb * 2 ^ (eb - e)))%Z in
      binary_normalize prec emax (if sa then (- r)%Z else r) e sa
  end.

(** [np.mod(a, b)] on [float64], as numpy's [npy_divmod] computes the
    remainder: [fmod(a, b)], moved by [b] when its sign is not the sign
    of [b], and a zero with the sign of [b] when it is zero. *)
Definition np_mod (a b : spec_float) : spec_float :=
  let md := fmod a b in
  if is_zero b then md
  else if is_zero md then S754_zero (sign_bit b)
  else if xorb (SFltb b (S754_zero false)) (SFltb md (S754_zero false))
       then SFadd prec emax md b
       else md.

(** [np.pi], the binary64 number nearest to pi, and [2 * np.pi]. *)
Definition pi : spec_float := S754_finite false 7074237752028440 (-51).
Definition two_pi : spec_float := S754_finite false 7074237752028440 (-50).

(** A binary64 number with its exponent moved by [k]: the number times
    2^k, exactly. *)
Definition scale2 (k : Z) (v : spec_float) : spec_float :=
  match v with
  | S754_finite s m e => S754_finite s m (e + k)
  | _ => v
  end.

(** The power of two 2^k as a binary64 number, for k from -1022 to 1023. *)
Definition pow2 (k : Z) : spec_float :=
  S754_finite false 4503599627370496 (k - 52).

(** The binade of a finite number: the [x] with 2^(x-1) <= |v| < 2^x. *)
Definition binade (v : spec_float) : Z :=
  match v with
  | S754_finite _ m e => Zpos (digits2_pos m) + e
  | _ => 0%Z
  end.

(** Whether multiplying [a] by 2^k is exact: [a] is a zero, an infinity,
    not-a-number, or a normal number whose product is a normal number too. *)
Definition scales_exactly (k : Z) (a : spec_float) : bool :=
  match a with
  | S754_finite _ m e =>
      (Zpos (digits2_pos m) =? 53)%Z
      && (-1074 <=? e + k)%Z && (e + k <=? 971)%Z
  | _ => true
  end.

(** Whether the quotient of [a] by [o] scales with [a]: the quotient and
    the quotient of 2^k [a] by [o] are both at least 2^-1022, the smallest
    normal number, and neither overflows. *)
Definition quotient_scales (k : Z) (a o : spec_float) : bool :=
  match a, o with
  | S754_finite _ _ _, S754_finite _ _ _ =>
      (-1021 <=? binade a - binade o)%Z
      && (-1021 <=? binade a + k - binade o)%Z
      && negb (is_inf (SFdiv prec emax a o))
      && negb (is_inf (SFdiv prec emax (scale2 k a) o))
  | _, _ => true
  end.

(** Whether a right shift has dropped a bit that was set. *)
Definition sticky (mrs : shr_record) : bool := shr_r mrs || shr_s mrs.

(** A zero, or a positive number that is at most [mb * 2^eb]. *)
Definition below (x : spec_float) (mb : positive) (eb : Z) : Prop :=
  x = S754_zero false
  \/ exists m' e', x = S754_finite false m' e'
                  /\ (e' <= eb)%Z /\ (Zpos m' <= Zpos mb * 2 ^ (eb - e'))%Z.
End B64.



(** ** The estimator as the specification words it *)

Section SpatialInformationSpec.
Context {F : Type} `{Numeric F}.
Variable array_sum : list F -> F.
Variable log2 : F -> F.

(** A spatial bin: the activity summed in it and the time spent in it. *)
Definition bin : Type := (F * F)%type.
Definition activity (b : bin) : F := fst b.
Definition occupancy_of (b : bin) : F := snd b.

(** The bins with occupancy > 0. *)
Definition is_visited (b : bin) : bool := nlt nzero (occupancy_of b).
Definition visited_bins (tuning_curve occupancy : list F) : list bin :=
  filter is_visited (combine tuning_curve occupancy).

(** Per-bin rate = activity / occupancy. *)
Definition bin_rate (b : bin) : F := ndiv (activity b) (occupancy_of b).

(** The bins with rate > 0. *)
Definition has_rate (b : bin) : bool := nlt nzero (bin_rate b).

Section OverVisited.
Variable vb : list bin.

Definition total_activity : F := array_sum (map activity vb).
Definition total_occupancy : F := array_sum (map occupancy_of vb).

(** Mean rate = total activity / total occupancy. *)
Definition mean_rate : F := ndiv total_activity total_occupancy.

(** Occupancy probability = occupancy / total occupancy. *)
Definition bin_prob (b : bin) : F := ndiv (occupancy_of b) total_occupancy.

(** probability * (rate / mean_rate) * log2 (rate / mean_rate). *)
Definition bin_term (b : bin) : F :=
  nmul (nmul (bin_prob b) (ndiv (bin_rate b) mean_rate))
       (log2 (ndiv (bin_rate b) mean_rate)).

(** What a bin adds to the result: its term when its rate is positive,
    zero otherwise. *)
Definition bin_contribution (b : bin) : F :=
  if has_rate b then bin_term b else nzero.
End OverVisited.

(** The sum, over the visited bins with rate > 0, of their terms. *)
Definition information_sum (tuning_curve occupancy : list F) : F :=
  let vb := visited_bins tuning_curve occupancy in
  py_sum (map (bin_term vb) (filter has_rate vb)).
End SpatialInformationSpec.

(** The number of null values that strictly exceed the true value. *)
Definition count_exceeding {F : Type} `{Numeric F} (si : F) (nulls : list F) : nat :=
  length (filter (fun s => nlt si s) nulls).

(** A bin with its activity multiplied by 2^k, in binary64. *)
Definition scale_bin (k : Z) (b : bin (F:=spec_float)) : bin (F:=spec_float) :=
  (nmul (B64.pow2 k) (activity b), occupancy_of b).

(** ** The running filter as the specification words it *)

Section VelocitySpec.
Context {F : Type} `{Numeric F}.

(** The Euclidean distance between positions [i-1] and [i]; zero for the
    first sample. *)
Definition sample_distance (x y : list F) (i : nat) : F :=
  match i with
  | O => nzero
  | S j => euclid (nsub (nth i x nzero) (nth j x nzero))
                  (nsub (nth i y nzero) (nth j y nzero))
  end.

(** The time of sample [i] in seconds, from milliseconds. *)
Definition seconds (t : list F) (i : nat) : F := ndiv (nth i t nzero) (nof_Z 1000).

(** The time elapsed for sample [i]: since the sample before it, and since
    time zero for the first sample. *)
Definition elapsed_seconds (t : list F) (i : nat) : F :=
  match i with
  | O => nsub (seconds t 0) nzero
  | S j => nsub (seconds t i) (seconds t j)
  end.

Definition threshold_of (velocity_threshold : option F) : F :=
  match velocity_threshold with
  | Some v => v
  | None => nof_Z 10
  end.
End VelocitySpec.

(** The sum of an array of reals; the order of the additions is
    immaterial. *)
Definition R_sum (a : list R) : R := fold_left Rplus a 0%R.

(** ** A small recording, to run the definitions on *)

Module Example.
Import B64.

Definition fl (z : Z) : spec_float := of_Z z.

(** [a.sum()] on the short arrays of this example: numpy adds an array of
    fewer than 8 entries from left to right. *)
Definition array_sum (a : list spec_float) : spec_float := py_sum a.

(** A stand-in for [np.log2] in binary64, exact on the powers of two: the
    position of the leading bit. *)
Definition leading_bit_log2 (v : spec_float) : spec_float :=
  match v with
  | S754_zero _ => S754_infinity true
  | S754_infinity false => S754_infinity false
  | S754_finite false m e => fl (Zpos (digits2_pos m) + e - 1)
  | _ => S754_nan
  end.

(** A one-dimensional histogram over given edges, each bin closed on the
    left and open on the right, the last one closed on both sides. *)
Definition in_bin (lo hi : spec_float) (last : bool) (p : spec_float) : bool :=
  SFleb lo p && (if last then SFleb p hi else SFltb p hi).

Fixpoint bin_total (lo hi : spec_float) (last : bool)
         (x w : list spec_float) (acc : spec_float) : spec_float :=
  match x, w with
  | p :: x', v :: w' =>
      bin_total lo hi last x' w' (if in_bin lo hi last p then nadd acc v else acc)
  | _, _ => acc
  end.

Fixpoint hist_1d (edges x w : list spec_float) : list spec_float :=
  match edges with
  | lo :: (hi :: rest) as edges' =>
      bin_total lo hi (match rest with [] => true | _ => false end) x w nzero
      :: hist_1d edges' x w
  | _ => []
  end.

Definition edges : list spec_float := [fl 0; fl 1; fl 2; fl 3].

(** A binning routine with the interface of [spatial_bin]: it bins [x]
    alone, over the edges it is given, or over [edges] when given none. *)
Definition spatial_bin (x y : list spec_float) (bin_size_cm : option spec_float)
           (nbins : option nat) (weights : option (list spec_float))
           (one_dim : bool) (bins : option (list spec_float))
  : result (list spec_float * list spec_float) :=
  let e := match bins with Some e => e | None => edges end in
  match weights with
  | None => Ok (hist_1d e x (map (fun _ => fl 1) x), e)
  | Some w =>
      if Nat.eqb (length w) (length x) then Ok (hist_1d e x w, e)
      else Raise ValueError
  end.

(** 303 samples: the animal alternates between the first two bins and
    never enters the third; it stands still on every fifth sample. *)
Definition n_samples : nat := 303.
Definition samples : list nat := seq 0 n_samples.
Definition x : list spec_float := map (fun j => fl (Z.of_nat (j mod 2))) samples.
Definition y : list spec_float := map (fun _ => fl 0) samples.
Definition running : list bool := map (fun j => negb (Nat.eqb (j mod 5) 0)) samples.

(** Two neurons. *)
Definition neural : matrix spec_float :=
  {| rows := [ map (fun j => fl (Z.of_nat (j mod 3))) samples;
               map (fun j => fl (Z.of_nat ((j / 50) mod 2))) samples ];
     n_cols := n_samples |}.

(** The object after the occupancy map is made. *)
Definition with_occupancy (occ : list spec_float * list spec_float)
           (spatial_info : list spec_float)
           (placefields_normalized : list (list spec_float))
  : PlaceFields spec_float (list spec_float) :=
  {| data_x := x;
     data_y := y;
     data_neural := neural;
     data_running := running;
     data_occupancy_map := fst occ;
     data_occupancy_bins := snd occ;
     data_spatial_info := spatial_info;
     data_placefields_normalized := placefields_normalized;
     meta_linearized := true;
     meta_bin_size := Some (fl 1);
     meta_nbins := None |}.

Definition or_else {A} (r : result A) (d : A) : A :=
  match r with Ok a => a | Raise _ => d end.

Definition rng0 : rng := {| tape := fun i => Z.of_nat i; cursor := 0 |}.

(** The stages of the constructor, in its order. *)
Definition occupancy : list spec_float * list spec_float :=
  Eval vm_compute in
    or_else (make_occupancy_map spatial_bin (with_occupancy ([], []) [] [])) ([], []).

Definition placefields : list (list spec_float) :=
  Eval vm_compute in
    fst (or_else (make_all_place_fields spatial_bin
                    (with_occupancy occupancy [] []) false rng0)
                 ([], rng0)).

Definition spatial_info : list spec_float :=
  Eval vm_compute in
    map (fun pf => or_else (spatial_information array_sum leading_bit_log2 pf
                                                (fst occupancy))
                           S754_nan)
        placefields.

Definition placefields_normalized : list (list spec_float) :=
  Eval vm_compute in
    fst (or_else (make_all_place_fields spatial_bin
                    (with_occupancy occupancy [] []) true rng0)
                 ([], rng0)).

(** The finished object. *)
Definition self : PlaceFields spec_float (list spec_float) :=
  with_occupancy occupancy spatial_info placefields_normalized.

(** The shuffle test of the first neuron with three shuffles: p-value,
    z-score and the generator afterwards. *)
Definition significance : spec_float * spec_float * rng :=
  Eval vm_compute in
    or_else (assess_spatial_sig spatial_bin array_sum leading_bit_log2 self 0
                                (Some 3) rng0)
            (S754_nan, S754_nan, rng0).

(** A generator whose next draw is the largest offset. *)
Definition rng_last : rng := {| tape := fun _ => 3%Z; cursor := 0 |}.

(** 2^1023, the largest power of two in binary64. *)
Definition two_pow_1023 : spec_float := S754_finite false 4503599627370496 971.

(** 2^-1073, twice the smallest positive binary64 number. *)
Definition two_pow_m1073 : spec_float := S754_finite false 2 (-1074).

(** 0.1, to the nearest binary64. *)
Definition tenth : spec_float := S754_finite false 7205759403792794 (-56).

(** 2^-52, the distance from 1 to the next binary64 number. *)
Definition two_pow_m52 : spec_float := S754_finite false 4503599627370496 (-104).

(** A stand-in for [np.arctan2] on the two positions of the circular
    example, (-2^-52, -1) and (2^-52, 1) from the center: there the angles
    are -pi/2 - 2^-52 and pi/2 - 2^-52, which to the nearest binary64 are
    -7074237752028441 * 2^-52 and 7074237752028439 * 2^-52. *)
Definition arctan2_near_axis (vy vx : spec_float) : spec_float :=
  match vy with
  | S754_finite true _ _ => S754_finite true 7074237752028441 (-52)
  | _ => S754_finite false 7074237752028439 (-52)
  end.
End Example.

From Stdlib Require Import Sorted.

(** ** Field bins and sampling rate *)

Section FieldBins.
Context {F : Type} `{Numeric F}.

Local Open Scope result_scope.

(** [a >= c] for an array [a] and a scalar [c]. *)
Definition np_ge (a : list F) (c : F) : list bool := map (fun v => nle c v) a.

(** [np.where(mask)[0]] on a one-dimensional mask: the positions that hold,
    in increasing order. *)
Fixpoint where_from (i : nat) (mask : list bool) : list nat :=
  match mask with
  | [] => []
  | b :: mask' => if b then i :: where_from (S i) mask' else where_from (S i) mask'
  end.

Definition np_where (mask : list bool) : list nat := where_from 0 mask.

(** The default [field_threshold], 0.5. *)
Definition field_threshold_default : F := ndiv (nof_Z 1) (nof_Z 2).

(** [define_field_bins(placefield, field_threshold=0.5)] on a
    one-dimensional place field; [None] leaves the default in place. *)
Definition define_field_bins (placefield : list F) (field_threshold : option F)
  : result (list nat) :=
  let threshold := match field_threshold with
                   | Some v => v
                   | None => field_threshold_default
                   end in
  peak <- py_max placefield ;;
  Ok (np_where (np_ge placefield (nmul peak threshold))).
End FieldBins.

(** What [round] and [int] make of a float: an integer, or [ValueError] on
    not-a-number, or [OverflowError] on an infinity. *)
Inductive rounded : Type :=
| Rounded (z : Z)
| RoundNaN        (* ValueError: cannot convert float NaN to integer *)
| RoundInfinite.  (* OverflowError: cannot convert float infinity to integer *)

Section SamplingRate.
Context {F : Type} `{Numeric F}.

(** [a.sum()] and Python's [round] to the nearest integer. *)
Variable array_sum : list F -> F.
Variable py_round : F -> rounded.

(** [np.diff(a)]: the differences of neighbouring entries. *)
Definition np_diff (a : list F) : list F :=
  match a with
  | [] => []
  | v :: a' => diff_from v a'
  end.

(** [get_fps()], on the time array in milliseconds. *)
Definition get_fps (t : list F) : rounded :=
  (* Take difference. *)
  let interframe_intervals := np_diff t in
  (* Inter-frame interval in milliseconds. *)
  let mean_interval := np_mean array_sum interframe_intervals in
  py_round (ndiv (nof_Z 1) (ndiv mean_interval (nof_Z 1000))).
End SamplingRate.

(** Rounding a binary64 to the nearest integer, halves to the even
    neighbour, as Python's [round] does. *)
Definition b64_round (v : spec_float) : rounded :=
  match v with
  | S754_nan => RoundNaN
  | S754_infinity _ => RoundInfinite
  | S754_zero _ => Rounded 0
  | S754_finite s m e =>
      let magnitude :=
        match e with
        | Zneg d =>
            let q := Z.shiftr (Zpos m) (Zpos d) in
            let r := (Zpos m - Z.shiftl q (Zpos d))%Z in
            let half := Z.shiftl 1 (Zpos d - 1) in
            match (r ?= half)%Z with
            | Lt => q
            | Gt => (q + 1)%Z
            | Eq => if Z.even q then q else (q + 1)%Z
            end
        | _ => Z.shiftl (Zpos m) e
        end in
      Rounded (if s then (- magnitude)%Z else magnitude)
  end.

(** The sum of a list of reals, one entry after the other from the right. *)
Definition total (a : list R) : R := fold_right Rplus 0%R a.

(** The place of a binary64 that is not not-a-number in the order of the
    comparisons: sign class first, then exponent, then mantissa. *)
Definition float_rank (v : spec_float) : Z * Z * Z :=
  match v with
  | S754_infinity true => (-2, 0, 0)%Z
  | S754_finite true m e => (-1, - e, - Zpos m)%Z
  | S754_zero _ | S754_nan => (0, 0, 0)%Z
  | S754_finite false m e => (1, e, Zpos m)%Z
  | S754_infinity false => (2, 0, 0)%Z
  end.

Definition rank_le (p q : Z * Z * Z) : Prop :=
  let '(a1, b1, c1) := p in
  let '(a2, b2, c2) := q in
  (a1 < a2 \/ (a1 = a2 /\ (b1 < b2 \/ (b1 = b2 /\ c1 <= c2))))%Z.

Definition rank_lt (p q : Z * Z * Z) : Prop :=
  let '(a1, b1, c1) := p in
  let '(a2, b2, c2) := q in
  (a1 < a2 \/ (a1 = a2 /\ (b1 < b2 \/ (b1 = b2 /\ c1 < c2))))%Z.

(** What [np.argmax] returns on a binary64 curve: the first not-a-number
    bin when there is one, and otherwise the first of the bins that hold the
    largest value. *)
Definition peak_bin (pf : list spec_float) (c : nat) : Prop :=
  c < length pf
  /\ ((B64.is_nan (nth c pf nzero) = true
       /\ forall j, j < c -> B64.is_nan (nth j pf nzero) = false)
      \/ (Forall (fun v => B64.is_nan v = false) pf
          /\ (forall j, j < length pf -> SFleb (nth j pf nzero) (nth c pf nzero) = true)
          /\ (forall j, j < c -> SFltb (nth j pf nzero) (nth c pf nzero) = true))).

(** Where the loop of [np.argmax] ends, started at position [i] with the
    running maximum [mp] found at [mi]: at the first not-a-number, or else
    at [mi] when nothing is larger than [mp], or else at the first largest
    entry. *)
Definition loop_outcome (a : list spec_float) (i : nat) (mp : spec_float)
           (mi c : nat) : Prop :=
  (i <= c < i + length a
   /\ B64.is_nan (nth (c - i) a nzero) = true
   /\ forall j, j < c - i -> B64.is_nan (nth j a nzero) = false)
  \/ (Forall (fun v => B64.is_nan v = false) a
      /\ ((c = mi /\ Forall (fun w => SFleb w mp = true) a)
          \/ (i <= c < i + length a
              /\ SFltb mp (nth (c - i) a nzero) = true
              /\ Forall (fun w => SFleb w (nth (c - i) a nzero) = true) a
              /\ forall j, j < c - i ->
                   SFltb (nth j a nzero) (nth (c - i) a nzero) = true))).

(** ** A recording over the reals *)

Module ExampleR.
(** One neuron, 303 samples, the activity of sample j being j. *)
Definition trace : list R := map INR (seq 0 303).

Definition self : PlaceFields R unit :=
  {| data_x := map (fun _ => 0%R) trace;
     data_y := map (fun _ => 0%R) trace;
     data_neural := {| rows := [trace]; n_cols := 303 |};
     data_running := map (fun _ => true) trace;
     data_occupancy_map := [303%R];
     data_occupancy_bins := tt;
     data_spatial_info := [0%R];
     data_placefields_normalized := [];
     meta_linearized := true;
     meta_bin_size := None;
     meta_nbins := Some 1 |}.

(** A generator whose draws all give the offset 301. *)
Definition rng1 : rng := {| tape := fun _ => 1%Z; cursor := 0 |}.
End ExampleR.

(** A binary64 that is a zero or not-a-number. *)
Definition zero_or_nan (v : spec_float) : bool := B64.is_zero v || B64.is_nan v.

(** * Properties *)

(** ** Arrays *)

Section ArrayFacts.
Context {F : Type} `{Numeric F}.

Lemma mask_select_raises {A} (a : list A) (mask : list bool) :
  length a <> length mask -> mask_select a mask = Raise IndexError.
Proof.
  revert mask; induction a as [|v a IH]; intros [|b mask] Hlen; simpl in *;
    try reflexivity; try congruence.
  rewrite IH by congruence. reflexivity.
Qed.

(** Selecting by a mask computed from the very entries keeps the entries
    that satisfy the test. *)
Lemma mask_select_map {A B} (f : A -> B) (g : A -> bool) (l : list A) :
  mask_select (map f l) (map g l) = Ok (map f (filter g l)).
Proof.
  induction l as [|v l IH]; simpl; [reflexivity|].
  rewrite IH. destruct (g v); reflexivity.
Qed.

Lemma zip_with_map {A B C D} (op : B -> C -> D) (f : A -> B) (g : A -> C) l :
  zip_with op (map f l) (map g l) = map (fun v => op (f v) (g v)) l.
Proof. induction l as [|v l IH]; simpl; [reflexivity|]. now rewrite IH. Qed.

Lemma broadcast2_same_length op (a b : list F) :
  length a = length b -> broadcast2 op a b = Ok (zip_with op a b).
Proof. intros E. unfold broadcast2. rewrite E, Nat.eqb_refl. reflexivity. Qed.

Lemma broadcast2_map {A} op (f g : A -> F) (l : list A) :
  broadcast2 op (map f l) (map g l) = Ok (map (fun v => op (f v) (g v)) l).
Proof.
  rewrite broadcast2_same_length by now rewrite !length_map.
  now rewrite zip_with_map.
Qed.

Lemma length_zip_with {A B C} (op : A -> B -> C) a b :
  length a = length b -> length (zip_with op a b) = length a.
Proof.
  revert b; induction a as [|v a IH]; intros [|w b] E; simpl in *; try congruence.
  now rewrite IH by congruence.
Qed.

Lemma nth_zip_with (op : F -> F -> F) a b i d :
  length a = length b -> i < length a ->
  nth i (zip_with op a b) d = op (nth i a d) (nth i b d).
Proof.
  revert b i; induction a as [|v a IH]; intros [|w b] i E Hi; simpl in *;
    try lia; try congruence.
  destruct i as [|i]; [reflexivity|]. apply IH; [congruence | lia].
Qed.

Lemma map_fst_combine {A B} (a : list A) (b : list B) :
  length a = length b -> map fst (combine a b) = a.
Proof.
  revert b; induction a as [|v a IH]; intros [|w b] E; simpl in *; try congruence.
  now rewrite IH by congruence.
Qed.

Lemma map_snd_combine {A B} (a : list A) (b : list B) :
  length a = length b -> map snd (combine a b) = b.
Proof.
  revert b; induction a as [|v a IH]; intros [|w b] E; simpl in *; try congruence.
  now rewrite IH by congruence.
Qed.
End ArrayFacts.

(** ** C1: the spatial information formula *)

Section SpatialInformationFacts.
Context {F : Type} `{Numeric F}.
Variable array_sum : list F -> F.
Variable log2 : F -> F.

Lemma spatial_information_on_bins (bins : list (bin (F:=F))) :
  spatial_information array_sum log2 (map activity bins) (map occupancy_of bins)
  = Ok (py_sum (map (bin_term array_sum log2 (filter is_visited bins))
                    (filter has_rate (filter is_visited bins)))).
Proof.
  unfold spatial_information, np_gt.
  rewrite map_map.
  change (map (fun x => nlt nzero (occupancy_of x)) bins) with (map is_visited bins).
  rewrite !mask_select_map. cbn [rbind].
  set (vb := filter is_visited bins).
  rewrite broadcast2_map. cbn [rbind].
  rewrite !map_map.
  change (map (fun x => nlt nzero (ndiv (activity x) (occupancy_of x))) vb)
    with (map has_rate vb).
  rewrite !mask_select_map. cbn [rbind].
  rewrite !map_map.
  rewrite broadcast2_map. cbn [rbind].
  rewrite broadcast2_map. cbn [rbind].
  reflexivity.
Qed.

Lemma spatial_information_same_shape (tuning_curve occupancy : list F) :
length tuning_curve = length occupancy ->
spatial_information array_sum log2 tuning_curve occupancy
= Ok (information_sum array_sum log2 tuning_curve occupancy).
Proof.
intros E.
rewrite <- (map_fst_combine tuning_curve occupancy E) at 1.
rewrite <- (map_snd_combine tuning_curve occupancy E) at 2.
apply spatial_information_on_bins.
Qed.

Lemma spatial_information_shape_mismatch (tuning_curve occupancy : list F) :
length tuning_curve <> length occupancy ->
spatial_information array_sum log2 tuning_curve occupancy = Raise IndexError.
Proof.
intros NE. unfold spatial_information.
rewrite mask_select_raises; [reflexivity|].
unfold np_gt. now rewrite length_map.
Qed.
End SpatialInformationFacts.

(** C1.  On a tuning curve and an occupancy map of one shape,
    [spatial_information] keeps the bins with occupancy > 0, takes per-bin
    rate = activity / occupancy, mean rate = total activity / total
    occupancy and probability = occupancy / total occupancy, and returns the
    sum, over the kept bins with rate > 0, of
    probability * (rate / mean rate) * log2 (rate / mean rate); the bins whose
    rate is not positive are left out of the sum and so add nothing to it.
    On two shapes that differ the boolean index raises.  This holds for every
    scalar type, binary64 among them, and in whatever
    order numpy's reduction adds up the totals. *)
Theorem spatial_information_formula :
  forall (F : Type) (N : Numeric F) (array_sum : list F -> F) (log2 : F -> F)
         (tuning_curve occupancy : list F),
    spatial_information array_sum log2 tuning_curve occupancy
    = if Nat.eqb (length tuning_curve) (length occupancy)
      then Ok (information_sum array_sum log2 tuning_curve occupancy)
      else Raise IndexError.
Proof.
  intros F N array_sum log2 tc occ.
  destruct (Nat.eqb_spec (length tc) (length occ)) as [E|NE].
  - rewrite <- (map_fst_combine tc occ E) at 1.
    rewrite <- (map_snd_combine tc occ E) at 2.
    apply spatial_information_on_bins.
  - unfold spatial_information.
    rewrite mask_select_raises; [reflexivity|].
    unfold np_gt. now rewrite length_map.
Qed.

(** ** binary64: zeros, infinities and not-a-number *)

Module B64Facts.
Import B64.

(** Dividing by a zero gives an infinity or not-a-number, whatever is
    divided. *)
Lemma div_by_zero (a o : spec_float) :
  is_zero o = true ->
  is_nan (SFdiv prec emax a o) = true \/ is_inf (SFdiv prec emax a o) = true.
Proof. destruct a, o; simpl; intros E; try discriminate; auto. Qed.

Lemma div_zero_by_zero (a o : spec_float) :
  is_zero a = true -> is_zero o = true -> SFdiv prec emax a o = S754_nan.
Proof. destruct a, o; simpl; intros E1 E2; try discriminate; reflexivity. Qed.

(** A zero divided by a positive quantity is a zero. *)
Lemma div_zero_by_positive (a o : spec_float) :
  is_zero a = true -> SFltb (S754_zero false) o = true ->
  is_zero (SFdiv prec emax a o) = true.
Proof.
  destruct a; simpl; try discriminate. intros _.
  destruct o as [so|[|]| |[|] m e]; cbn; intros E; try discriminate; reflexivity.
Qed.

Lemma zero_not_positive (v : spec_float) :
  is_zero v = true -> SFltb (S754_zero false) v = false.
Proof. destruct v; simpl; intros E; try discriminate; reflexivity. Qed.
End B64Facts.

Lemma filter_none {A} (f : A -> bool) (l : list A) :
  (forall v, In v l -> f v = false) -> filter f l = [].
Proof.
  induction l as [|v l IH]; intros Hf; simpl; [reflexivity|].
  rewrite (Hf v) by now left. apply IH. intros w Hw. apply Hf. now right.
Qed.

(** C6.  In binary64, when the activity is zero in every visited bin (which
    includes the case of no visited bin at all), [spatial_information]
    raises nothing and returns 0: no bin has rate > 0, so the division by the
    mean rate, which is then 0 / total occupancy or 0 / 0, is applied to no
    entry. *)
Theorem spatial_information_silent_neuron :
  forall (array_sum : list spec_float -> spec_float)
         (log2 : spec_float -> spec_float)
         (tuning_curve occupancy : list spec_float),
    length tuning_curve = length occupancy ->
    (forall b, In b (visited_bins tuning_curve occupancy) ->
               B64.is_zero (activity b) = true) ->
    spatial_information array_sum log2 tuning_curve occupancy = Ok (S754_zero false)
    /\ filter has_rate (visited_bins tuning_curve occupancy) = [].
Proof.
  intros array_sum log2 tc occ E Hz.
  assert (Hnone : filter has_rate (visited_bins tc occ) = []).
  { apply filter_none. intros b Hb.
    unfold has_rate, bin_rate. apply B64Facts.zero_not_positive.
    apply B64Facts.div_zero_by_positive; [now apply Hz|].
    apply filter_In in Hb. exact (proj2 Hb). }
  split; [|exact Hnone].
  rewrite spatial_information_same_shape by exact E.
  unfold information_sum. rewrite Hnone. reflexivity.
Qed.

(** ** The tuning-curve builder *)

Section MakePlaceFieldFacts.
Context {F : Type} `{Numeric F}.
Variable Bins : Type.
Variable spatial_bin :
  list F -> list F -> option F -> option nat -> option (list F) -> bool ->
  option Bins -> result (list F * Bins).
Variable self : PlaceFields F Bins.

(** The normalized curve is the raw curve of the same call, divided by the
    occupancy map. *)
Lemma make_place_field_normalized neuron shuffle g raw g' :
  make_place_field spatial_bin self neuron false shuffle g = Ok (raw, g') ->
  make_place_field spatial_bin self neuron true shuffle g
  = match broadcast2 ndiv raw (data_occupancy_map self) with
    | Ok normalized => Ok (normalized, g')
    | Raise e => Raise e
    end.
Proof.
  unfold make_place_field, mbind, lift.
  destruct (shuffled_trace self neuron shuffle g) as [[trace g1]|e]; [|discriminate].
  unfold bin_activity.
  destruct (mask_select (data_x self) (data_running self)); [|discriminate].
  destruct (mask_select (data_y self) (data_running self)); [|discriminate].
  destruct (mask_select trace (data_running self)); [|discriminate].
  cbn [rbind].
  destruct (spatial_bin _ _ _ _ _ _ _) as [[pf b]|e]; [|discriminate].
  cbn [rbind]. intros E. injection E as -> ->.
  destruct (broadcast2 _ _ _); reflexivity.
Qed.

(** Without shuffling no random number is drawn. *)
Lemma make_place_field_no_draw neuron normalize g pf g' :
  make_place_field spatial_bin self neuron normalize false g = Ok (pf, g') ->
  g' = g.
Proof.
  unfold make_place_field, shuffled_trace, mbind, lift.
  destruct (get_row (data_neural self) neuron); [|discriminate].
  destruct (bin_activity _ _ _ _); [|discriminate]. congruence.
Qed.
End MakePlaceFieldFacts.

(** C4.  In binary64, for a neuron whose raw tuning curve has the shape of
    the occupancy map, the normalized tuning curve is built without an
    exception, equals the raw curve divided entry by entry by the occupancy
    map, and holds not-a-number or an infinity, hence no numeric zero, in
    every bin whose occupancy is 0. *)
Theorem normalized_place_field_sentinels :
  forall (Bins : Type)
         (spatial_bin : list spec_float -> list spec_float -> option spec_float ->
                        option nat -> option (list spec_float) -> bool ->
                        option Bins -> result (list spec_float * Bins))
         (self : PlaceFields spec_float Bins) (neuron : nat) (g g' : rng)
         (raw : list spec_float),
    make_place_field spatial_bin self neuron false false g = Ok (raw, g') ->
    length raw = length (data_occupancy_map self) ->
    exists normalized,
      make_place_field spatial_bin self neuron true false g = Ok (normalized, g')
      /\ length normalized = length raw
      /\ forall i, i < length raw ->
           let o := nth i (data_occupancy_map self) nzero in
           let v := nth i normalized nzero in
           v = ndiv (nth i raw nzero) o
           /\ (B64.is_zero o = true ->
               (B64.is_nan v = true \/ B64.is_inf v = true)
               /\ B64.is_zero v = false).
Proof.
  intros Bins spatial_bin self neuron g g' raw Hraw Hlen.
  exists (zip_with ndiv raw (data_occupancy_map self)).
  split; [|split].
  - rewrite (make_place_field_normalized _ _ _ _ _ Hraw).
    now rewrite broadcast2_same_length.
  - now apply length_zip_with.
  - intros i Hi o v.
    assert (Hv : v = ndiv (nth i raw nzero) o).
    { unfold v, o. now apply nth_zip_with. }
    split; [exact Hv|].
    intros Ho.
    pose proof (B64Facts.div_by_zero (nth i raw nzero) o Ho) as Hs.
    change (SFdiv B64.prec B64.emax (nth i raw nzero) o)
      with (ndiv (nth i raw nzero) o) in Hs.
    rewrite <- Hv in Hs. split; [exact Hs|].
    destruct v; simpl in *; try reflexivity; destruct Hs; discriminate.
Qed.

(** ** binary64: rounding never invents a not-a-number *)

Module B64Rounding.
Import B64.

Lemma shr_1_nonneg mrs : (0 <= shr_m mrs)%Z -> (0 <= shr_m (shr_1 mrs))%Z.
Proof.
  destruct mrs as [m r s]; simpl.
  destruct m as [|[p|p|]|p]; simpl; lia.
Qed.

Lemma iter_shr_1_nonneg n mrs :
  (0 <= shr_m mrs)%Z -> (0 <= shr_m (iter_pos shr_1 n mrs))%Z.
Proof.
  revert mrs; induction n as [n IH|n IH|]; intros mrs Hm; simpl.
  - apply IH, IH, shr_1_nonneg, Hm.
  - apply IH, IH, Hm.
  - apply shr_1_nonneg, Hm.
Qed.

Lemma shr_record_of_loc_m m l : shr_m (shr_record_of_loc m l) = m.
Proof. destruct l as [|[| |]]; reflexivity. Qed.

Lemma shr_fexp_nonneg m e l :
  (0 <= m)%Z -> (0 <= shr_m (fst (shr_fexp prec emax m e l)))%Z.
Proof.
  intros Hm. unfold shr_fexp, shr.
  destruct (fexp prec emax (Zdigits2 m + e) - e)%Z; simpl;
    try (rewrite shr_record_of_loc_m; exact Hm).
  apply iter_shr_1_nonneg. rewrite shr_record_of_loc_m; exact Hm.
Qed.

Lemma round_nearest_even_nonneg m l :
  (0 <= m)%Z -> (0 <= round_nearest_even m l)%Z.
Proof.
  intros Hm. destruct l as [|[| |]]; simpl; try lia.
  destruct (Z.even m); lia.
Qed.

Lemma binary_round_aux_not_nan s m e l :
  (0 <= m)%Z -> is_nan (binary_round_aux prec emax s m e l) = false.
Proof.
  intros Hm. unfold binary_round_aux.
  pose proof (shr_fexp_nonneg e l Hm) as H1.
  destruct (shr_fexp prec emax m e l) as [mrs' e']. simpl in H1.
  pose proof (shr_fexp_nonneg e' loc_Exact
                (round_nearest_even_nonneg (loc_of_shr_record mrs') H1)) as H2.
  destruct (shr_fexp prec emax _ e' loc_Exact) as [mrs'' e'']. simpl in H2.
  destruct (shr_m mrs'') as [|p|p]; try reflexivity; [|lia].
  destruct (Z.leb e'' (emax - prec)); reflexivity.
Qed.

(** A quotient by a positive finite number is not-a-number only when the
    dividend is. *)
Lemma div_by_positive_not_nan a m e :
  is_nan a = false ->
  is_nan (SFdiv prec emax a (S754_finite false m e)) = false.
Proof.
  destruct a as [s|s| |s ma ea]; simpl; intros Ha; try reflexivity; try discriminate.
  unfold SFdiv_core_binary.
  set (m' := match (ea - e - _)%Z with Z0 => _ | Zpos _ => _ | Zneg _ => _ end).
  assert (Hm' : (0 <= m')%Z).
  { unfold m'. destruct (ea - e - _)%Z; try lia.
    apply Z.shiftl_nonneg. lia. }
  pose proof (Z_div_mod m' (Zpos m) eq_refl) as Hdiv.
  destruct (Z.div_eucl m' (Zpos m)) as [q r].
  apply binary_round_aux_not_nan.
  destruct Hdiv as [Hq Hr]. nia.
Qed.
End B64Rounding.

(** ** C9: place-field centers and unvisited bins *)

Section AllPlaceFieldsFacts.
Context {F : Type} `{Numeric F}.
Variable Bins : Type.
Variable spatial_bin :
  list F -> list F -> option F -> option nat -> option (list F) -> bool ->
  option Bins -> result (list F * Bins).
Variable self : PlaceFields F Bins.

(** The normalized curves of all neurons are the raw curves of all
    neurons, each divided by the occupancy map. *)
Lemma place_fields_from_normalized count :
  forall neuron g raws g',
    place_fields_from spatial_bin self neuron count false g = Ok (raws, g') ->
    Forall (fun raw => length raw = length (data_occupancy_map self)) raws ->
    place_fields_from spatial_bin self neuron count true g
    = Ok (map (fun raw => zip_with ndiv raw (data_occupancy_map self)) raws, g').
Proof.
  induction count as [|count IH]; intros neuron g raws g' Hraw Hshape; simpl in *.
  - unfold mret in *. injection Hraw as <- <-. reflexivity.
  - unfold mbind in *.
    destruct (make_place_field spatial_bin self neuron false false g)
      as [[raw g1]|e] eqn:Eraw; [|discriminate].
    destruct (place_fields_from spatial_bin self (S neuron) count false g1)
      as [[raws' g2]|e] eqn:Erest; [|discriminate].
    unfold mret in Hraw. injection Hraw as <- <-.
    inversion Hshape as [|? ? Hlen Hshape']; subst.
    rewrite (make_place_field_normalized _ _ _ _ _ Eraw).
    rewrite broadcast2_same_length by exact Hlen.
    rewrite (IH _ _ _ _ Erest Hshape'). reflexivity.
Qed.

Lemma place_fields_from_length count :
  forall neuron normalize g pfs g',
    place_fields_from spatial_bin self neuron count normalize g = Ok (pfs, g') ->
    length pfs = count.
Proof.
  induction count as [|count IH]; intros neuron normalize g pfs g' E; simpl in *.
  - unfold mret in E. injection E as <- <-. reflexivity.
  - unfold mbind in E.
    destruct (make_place_field _ _ _ _ _ _) as [[pf g1]|e]; [|discriminate].
    destruct (place_fields_from _ _ _ _ _ _) as [[pfs' g2]|e] eqn:Erest; [|discriminate].
    unfold mret in E. injection E as <- <-. simpl. f_equal. eapply IH, Erest.
Qed.
End AllPlaceFieldsFacts.

Module Centers.
Import B64.

(** Scanning a normalized curve, [np.argmax] stops at the first bin of
    occupancy 0, where the curve is not-a-number. *)
Lemma argmax_loop_stops_at_unvisited raw occupancy :
  Forall2 raw_bin_ok raw occupancy ->
  Forall (fun o => is_count o = true) occupancy ->
  Exists (fun o => is_zero o = true) occupancy ->
  forall i mp max_ind,
    argmax_loop (zip_with ndiv raw occupancy) i mp max_ind
    = i + first_zero_occupancy occupancy.
Proof.
  induction 1 as [|a o raw occ [Hnan Hempty] Hrest IH]; intros Hcount Hex i mp max_ind.
  - inversion Hex.
  - inversion Hcount as [|? ? Ho Hcount']; subst.
    cbn [zip_with argmax_loop first_zero_occupancy].
    destruct (is_zero o) eqn:Ez.
    + assert (Hv : ndiv a o = S754_nan)
        by exact (B64Facts.div_zero_by_zero a o (Hempty eq_refl) Ez).
      rewrite Hv. cbn. lia.
    + assert (Hv : nisnan (ndiv a o) = false).
      { destruct o as [s|s| |[|] m e]; simpl in Ho, Ez; try discriminate.
        now apply B64Rounding.div_by_positive_not_nan. }
      assert (Hex' : Exists (fun o => is_zero o = true) occ).
      { inversion Hex; subst; [congruence | assumption]. }
      rewrite Hv.
      destruct (negb (nle (ndiv a o) mp)); rewrite IH by assumption; lia.
Qed.

Lemma argmax_of_normalized raw occupancy :
  Forall2 raw_bin_ok raw occupancy ->
  Forall (fun o => is_count o = true) occupancy ->
  Exists (fun o => is_zero o = true) occupancy ->
  np_argmax (zip_with ndiv raw occupancy) = Ok (first_zero_occupancy occupancy).
Proof.
  intros Hraw Hcount Hex.
  destruct Hraw as [|a o raw occ [Hnan Hempty] Hrest]; [inversion Hex|].
  inversion Hcount as [|? ? Ho Hcount']; subst.
  cbn [zip_with np_argmax first_zero_occupancy].
  destruct (is_zero o) eqn:Ez.
  - assert (Hv : ndiv a o = S754_nan)
      by exact (B64Facts.div_zero_by_zero a o (Hempty eq_refl) Ez).
    rewrite Hv. reflexivity.
  - assert (Hv : nisnan (ndiv a o) = false).
    { destruct o as [s|s| |[|] m e]; simpl in Ho, Ez; try discriminate.
      now apply B64Rounding.div_by_positive_not_nan. }
    assert (Hex' : Exists (fun o => is_zero o = true) occ).
    { inversion Hex; subst; [congruence | assumption]. }
    rewrite Hv.
    now rewrite argmax_loop_stops_at_unvisited.
Qed.

Lemma normalized_nan_at_first_unvisited raw occupancy :
  Forall2 raw_bin_ok raw occupancy ->
  Exists (fun o => is_zero o = true) occupancy ->
  is_nan (nth (first_zero_occupancy occupancy)
              (zip_with ndiv raw occupancy) nzero) = true.
Proof.
  induction 1 as [|a o raw occ [Hnan Hempty] Hrest IH]; intros Hex.
  - inversion Hex.
  - cbn [zip_with first_zero_occupancy].
    destruct (is_zero o) eqn:Ez.
    + cbn [nth].
      assert (Hv : ndiv a o = S754_nan)
        by exact (B64Facts.div_zero_by_zero a o (Hempty eq_refl) Ez).
      now rewrite Hv.
    + cbn [nth]. apply IH.
      inversion Hex; subst; [congruence | assumption].
Qed.

Lemma argmax_each_normalized occupancy raws :
  Forall (fun raw => Forall2 raw_bin_ok raw occupancy) raws ->
  Forall (fun o => is_count o = true) occupancy ->
  Exists (fun o => is_zero o = true) occupancy ->
  argmax_each (map (fun raw => zip_with ndiv raw occupancy) raws)
  = Ok (map (fun _ => first_zero_occupancy occupancy) raws).
Proof.
  intros Hraws Hcount Hex.
  induction Hraws as [|raw raws Hraw _ IH]; cbn [map argmax_each]; [reflexivity|].
  rewrite (argmax_of_normalized Hraw Hcount Hex). cbn [rbind].
  now rewrite IH.
Qed.
End Centers.

(** C9.  [find_pf_centers] takes [np.argmax] of each normalized tuning
    curve.  In binary64, when the occupancy map (of counts) has a bin of
    occupancy 0 and the raw tuning curves are free of not-a-number and hold no
    activity where no sample fell, the normalized curve is not-a-number in
    that bin and the center reported for every neuron is the position of the
    first bin of occupancy 0. *)
Theorem centers_at_first_unvisited_bin :
  forall (Bins : Type)
         (spatial_bin : list spec_float -> list spec_float -> option spec_float ->
                        option nat -> option (list spec_float) -> bool ->
                        option Bins -> result (list spec_float * Bins))
         (self : PlaceFields spec_float Bins) (g g1 g2 : rng)
         (placefields : list (list spec_float)),
    make_all_place_fields spatial_bin self false g = Ok (placefields, g1) ->
    make_all_place_fields spatial_bin self true g
    = Ok (data_placefields_normalized self, g2) ->
    Forall (fun o => B64.is_count o = true) (data_occupancy_map self) ->
    Exists (fun o => B64.is_zero o = true) (data_occupancy_map self) ->
    Forall (fun raw => Forall2 B64.raw_bin_ok raw (data_occupancy_map self))
           placefields ->
    find_pf_centers self = argmax_each (data_placefields_normalized self)
    /\ find_pf_centers self
       = Ok (repeat (B64.first_zero_occupancy (data_occupancy_map self))
                    (length (rows (data_neural self))))
    /\ Forall (fun pf => B64.is_nan
                 (nth (B64.first_zero_occupancy (data_occupancy_map self)) pf nzero)
               = true)
              (data_placefields_normalized self).
Proof.
  intros Bins spatial_bin self g g1 g2 raws Hraws Hnorm Hcount Hex Hok.
  unfold make_all_place_fields in *.
  assert (Hshape : Forall (fun raw => length raw = length (data_occupancy_map self)) raws).
  { eapply Forall_impl; [|exact Hok]. intros raw Hr. eapply Forall2_length, Hr. }
  rewrite (place_fields_from_normalized _ _ _ _ _ Hraws Hshape) in Hnorm.
  assert (Hpfs : map (fun raw => zip_with ndiv raw (data_occupancy_map self)) raws
                 = data_placefields_normalized self) by congruence.
  clear Hnorm.
  split; [reflexivity|]. split.
  - unfold find_pf_centers. rewrite <- Hpfs.
    rewrite (Centers.argmax_each_normalized Hok Hcount Hex).
    rewrite <- (place_fields_from_length _ _ _ _ _ _ Hraws).
    f_equal. clear. induction raws; simpl; congruence.
  - rewrite <- Hpfs. apply Forall_map.
    eapply Forall_impl; [|exact Hok].
    intros raw Hr. now apply Centers.normalized_nan_at_first_unvisited.
Qed.
(** ** C5: scaling the tuning curve *)

Lemma combine_map_l {A A' B} (f : A -> A') (a : list A) (b : list B) :
  combine (map f a) b = map (fun p => (f (fst p), snd p)) (combine a b).
Proof.
  revert b; induction a as [|v a IH]; intros [|w b]; simpl; try reflexivity.
  now rewrite IH.
Qed.

Lemma filter_map_commute {A B} (f : A -> B) (p : B -> bool) (q : A -> bool) l :
  (forall v, p (f v) = q v) -> filter p (map f l) = map f (filter q l).
Proof.
  intros Hpq. induction l as [|v l IH]; simpl; [reflexivity|].
  rewrite Hpq, IH. destruct (q v); reflexivity.
Qed.

Unset Implicit Arguments.

(** *** Shifts and rounding in binary64 *)

Module B64Exact.
Import B64.
Local Open Scope Z_scope.

Lemma digits_size (p : positive) : digits2_pos p = Pos.size p.
Proof. induction p as [p IH|p IH|]; cbn; now rewrite ?IH. Qed.

Lemma digits_log2 (p : positive) : Zpos (digits2_pos p) = Z.log2 (Zpos p) + 1.
Proof.
  rewrite digits_size. destruct p as [p|p|]; cbn [Z.log2 Pos.size]; lia.
Qed.

Lemma digits_upper (p : positive) (d : Z) :
  Zpos p < 2 ^ d -> Zpos (digits2_pos p) <= d.
Proof.
  intros Hp. rewrite digits_log2.
  destruct (Z_lt_le_dec d 0) as [Hd|Hd].
  - rewrite Z.pow_neg_r in Hp by lia. lia.
  - apply Z.log2_lt_pow2 in Hp; lia.
Qed.

Lemma digits_lower (p : positive) (d : Z) :
  2 ^ d <= Zpos p -> d + 1 <= Zpos (digits2_pos p).
Proof.
  intros Hp. rewrite digits_log2.
  destruct (Z_lt_le_dec d 0) as [Hd|Hd].
  - pose proof (Z.log2_nonneg (Zpos p)). lia.
  - apply Z.log2_le_pow2 in Hp; lia.
Qed.

Lemma digits_bounds (p : positive) :
  2 ^ (Zpos (digits2_pos p) - 1) <= Zpos p < 2 ^ Zpos (digits2_pos p).
Proof.
  rewrite digits_log2.
  replace (Z.log2 (Zpos p) + 1 - 1) with (Z.log2 (Zpos p)) by lia.
  replace (Z.log2 (Zpos p) + 1) with (Z.succ (Z.log2 (Zpos p))) by lia.
  apply Z.log2_spec. lia.
Qed.

(** One step of the right shift halves the mantissa. *)
Lemma shr_1_m (mrs : shr_record) :
  0 <= shr_m mrs -> shr_m (shr_1 mrs) = shr_m mrs / 2.
Proof.
  destruct mrs as [m r s]. cbn [shr_m]. intros Hm.
  rewrite <- Z.div2_div.
  destruct m as [|[p|p|]|p]; try reflexivity. lia.
Qed.

Lemma iter_shr_m (n : positive) :
  forall mrs, 0 <= shr_m mrs ->
    shr_m (iter_pos shr_1 n mrs) = shr_m mrs / 2 ^ Zpos n.
Proof.
  induction n as [n IH|n IH|]; intros mrs Hm; cbn [iter_pos].
  - assert (H1 : 0 <= shr_m (shr_1 mrs)) by (rewrite shr_1_m by assumption; apply Z.div_pos; lia).
    assert (H2 : 0 <= shr_m (iter_pos shr_1 n (shr_1 mrs)))
      by (rewrite IH by assumption; apply Z.div_pos; [assumption|apply Z.pow_pos_nonneg; lia]).
    rewrite IH, IH, shr_1_m by assumption.
    rewrite !Z.div_div by (try apply Z.pow_pos_nonneg; lia).
    f_equal. replace (Zpos n~1) with (1 + Zpos n + Zpos n) by lia.
    rewrite !Z.pow_add_r by lia. lia.
  - assert (H2 : 0 <= shr_m (iter_pos shr_1 n mrs))
      by (rewrite IH by assumption; apply Z.div_pos; [assumption|apply Z.pow_pos_nonneg; lia]).
    rewrite IH, IH by assumption.
    rewrite !Z.div_div by (try apply Z.pow_pos_nonneg; lia).
    f_equal. replace (Zpos n~0) with (Zpos n + Zpos n) by lia.
    rewrite !Z.pow_add_r by lia. lia.
  - rewrite shr_1_m by assumption. reflexivity.
Qed.

Lemma shr_1_sticky (mrs : shr_record) :
  0 <= shr_m mrs ->
  sticky (shr_1 mrs) = sticky mrs || negb (shr_m mrs mod 2 =? 0).
Proof.
  destruct mrs as [m r s]. unfold sticky. cbn [shr_m]. intros Hm.
  rewrite Zmod_odd.
  destruct m as [|[p|p|]|p]; cbn; try lia; destruct r, s; reflexivity.
Qed.

Lemma mod_pow_split (m a b : Z) :
  0 <= m -> 0 <= a -> 0 <= b ->
  (m mod 2 ^ (a + b) =? 0) = (m mod 2 ^ a =? 0) && ((m / 2 ^ a) mod 2 ^ b =? 0).
Proof.
  intros Hm Ha Hb.
  assert (Pa : 0 < 2 ^ a) by (apply Z.pow_pos_nonneg; lia).
  assert (Pb : 0 < 2 ^ b) by (apply Z.pow_pos_nonneg; lia).
  rewrite Z.pow_add_r by lia.
  rewrite Z.rem_mul_r by lia.
  pose proof (Z.mod_pos_bound m (2 ^ a) Pa).
  pose proof (Z.mod_pos_bound (m / 2 ^ a) (2 ^ b) Pb).
  destruct (Z.eqb_spec (m mod 2 ^ a) 0) as [E1|E1];
    destruct (Z.eqb_spec ((m / 2 ^ a) mod 2 ^ b) 0) as [E2|E2]; cbn;
    apply Z.eqb_eq || apply Z.eqb_neq; nia.
Qed.

Lemma iter_sticky (n : positive) :
  forall mrs, 0 <= shr_m mrs ->
    sticky (iter_pos shr_1 n mrs)
    = sticky mrs || negb (shr_m mrs mod 2 ^ Zpos n =? 0).
Proof.
  induction n as [n IH|n IH|]; intros mrs Hm; cbn [iter_pos].
  - assert (H1 : 0 <= shr_m (shr_1 mrs)) by (rewrite shr_1_m by assumption; apply Z.div_pos; lia).
    assert (H2 : 0 <= shr_m (iter_pos shr_1 n (shr_1 mrs)))
      by (rewrite iter_shr_m by assumption; apply Z.div_pos; [assumption|apply Z.pow_pos_nonneg; lia]).
    rewrite IH, IH, shr_1_sticky by assumption.
    rewrite iter_shr_m, shr_1_m by assumption.
    replace (Zpos n~1) with (1 + (Zpos n + Zpos n)) by lia.
    rewrite (mod_pow_split mrs.(shr_m) 1 (Zpos n + Zpos n)) by lia.
    rewrite (mod_pow_split (shr_m mrs / 2 ^ 1) (Zpos n) (Zpos n)) by (try apply Z.div_pos; lia).
    change (2 ^ 1) with 2.
    rewrite !negb_andb. rewrite <- !orb_assoc. reflexivity.
  - assert (H2 : 0 <= shr_m (iter_pos shr_1 n mrs))
      by (rewrite iter_shr_m by assumption; apply Z.div_pos; [assumption|apply Z.pow_pos_nonneg; lia]).
    rewrite IH, IH by assumption.
    rewrite iter_shr_m by assumption.
    replace (Zpos n~0) with (Zpos n + Zpos n) by lia.
    rewrite (mod_pow_split mrs.(shr_m) (Zpos n) (Zpos n)) by lia.
    rewrite !negb_andb. rewrite <- !orb_assoc. reflexivity.
  - rewrite shr_1_sticky by assumption. reflexivity.
Qed.

Lemma round_exact (mrs : shr_record) :
  sticky mrs = false ->
  round_nearest_even (shr_m mrs) (loc_of_shr_record mrs) = shr_m mrs.
Proof.
  destruct mrs as [m [|] [|]]; unfold sticky; cbn; intros E; try discriminate.
  reflexivity.
Qed.

Lemma round_bounds (m : Z) (l : location) :
  m <= round_nearest_even m l <= m + 1.
Proof.
  destruct l as [|[| |]]; cbn; try lia. destruct (Z.even m); lia.
Qed.


Lemma pow_split (a b : Z) : 0 <= a -> 0 <= b -> 2 ^ (a + b) = 2 ^ a * 2 ^ b.
Proof. intros. now apply Z.pow_add_r. Qed.

(** A value that is at most [mb * 2^eb], a number whose mantissa has at
    most 53 bits, is rounded to a value that is at most [mb * 2^eb]. *)
Lemma round_aux_le (M : positive) (e : Z) (mb : positive) (eb : Z) :
  Zpos (digits2_pos mb) <= prec ->
  emin prec emax <= eb <= emax - prec ->
  e <= eb ->
  Zpos M <= Zpos mb * 2 ^ (eb - e) ->
  below (binary_round_aux prec emax false (Zpos M) e loc_Exact) mb eb.
Proof.
  intros Hmb Heb He HM.
  pose proof (digits_bounds mb) as Bmb.
  assert (Hmb2 : Zpos mb < 2 ^ prec).
  { eapply Z.lt_le_trans; [apply Bmb|]. apply Z.pow_le_mono_r; lia. }
  unfold binary_round_aux, shr_fexp.
  cbn [Zdigits2]. cbn [shr_record_of_loc].
  set (f := fexp prec emax (Zpos (digits2_pos M) + e)).
  assert (Hf_min : emin prec emax <= f) by (unfold f, fexp; lia).
  destruct (f - e) as [|n|n] eqn:En; cbn [shr shr_m loc_of_shr_record round_nearest_even].
  - (* no shift *)
    cbn [Zdigits2]. fold f. rewrite En. cbn [shr shr_record_of_loc shr_m].
    replace (e <=? emax - prec) with true by (symmetry; apply Z.leb_le; lia).
    right. exists M, e. repeat split; assumption.
  - (* a shift by n *)
    assert (Hfe : f = e + Zpos n) by lia.
    assert (Hf_eb : f <= eb).
    { unfold f, fexp. apply Z.max_lub; [|lia].
      assert (Zpos (digits2_pos M) <= prec + eb - e); [|lia].
      apply digits_upper. eapply Z.le_lt_trans; [exact HM|].
      replace (prec + eb - e) with (prec + (eb - e)) by lia.
      rewrite pow_split by (unfold prec; lia).
      apply Z.mul_lt_mono_pos_r; [apply Z.pow_pos_nonneg; lia | exact Hmb2]. }
    set (mrs := iter_pos shr_1 n {| shr_m := Zpos M; shr_r := false; shr_s := false |}).
    assert (Hm1 : shr_m mrs = Zpos M / 2 ^ Zpos n)
      by (unfold mrs; rewrite iter_shr_m; cbn [shr_m]; lia).
    assert (Hst : sticky mrs = negb (Zpos M mod 2 ^ Zpos n =? 0))
      by (unfold mrs; rewrite iter_sticky; cbn [shr_m]; [reflexivity | lia]).
    set (Bf := Zpos mb * 2 ^ (eb - f)).
    assert (P2n : 0 < 2 ^ Zpos n) by (apply Z.pow_pos_nonneg; lia).
    assert (HBf : Zpos mb * 2 ^ (eb - e) = Bf * 2 ^ Zpos n).
    { unfold Bf. replace (eb - e) with ((eb - f) + Zpos n) by lia.
      rewrite pow_split by lia. lia. }
    assert (Hm1r : 0 <= round_nearest_even (shr_m mrs) (loc_of_shr_record mrs) <= Bf).
    { pose proof (round_bounds (shr_m mrs) (loc_of_shr_record mrs)) as Hb.
      assert (H0 : 0 <= shr_m mrs) by (rewrite Hm1; apply Z.div_pos; lia).
      assert (Hle : shr_m mrs <= Bf).
      { rewrite Hm1. apply Z.div_le_upper_bound; [exact P2n|]. lia. }
      split; [lia|].
      destruct (Z.eq_dec (shr_m mrs) Bf) as [Eq|Ne]; [|lia].
      rewrite round_exact; [lia|].
      rewrite Hst. apply negb_false_iff, Z.eqb_eq.
      assert (EM : Zpos M = Bf * 2 ^ Zpos n).
      { pose proof (Z.mul_div_le (Zpos M) (2 ^ Zpos n) P2n). rewrite <- Hm1, Eq in H. lia. }
      rewrite EM. apply Z.mod_mul. lia. }
    set (m1r := round_nearest_even (shr_m mrs) (loc_of_shr_record mrs)) in *.
    replace (e + Zpos n) with f by lia.
    assert (HBf2 : Bf < 2 ^ (prec + (eb - f))).
    { unfold Bf. rewrite pow_split by (unfold prec; lia).
      apply Z.mul_lt_mono_pos_r; [apply Z.pow_pos_nonneg; lia | exact Hmb2]. }
    destruct m1r as [|p1|p1] eqn:Em1r; [| |lia].
    + (* rounded to zero *)
      cbn [Zdigits2].
      destruct (fexp prec emax (0 + f) - f) eqn:E0; cbn [shr shr_m];
        try (left; reflexivity).
      unfold fexp in E0. unfold emin, prec, emax in *. lia.
    + cbn [Zdigits2].
      set (d2 := Zpos (digits2_pos p1)).
      assert (Hd2 : d2 <= prec + (eb - f)).
      { apply digits_upper. lia. }
      destruct (fexp prec emax (d2 + f) - f) as [|n2|n2] eqn:En2; cbn [shr shr_m].
      * replace (f <=? emax - prec) with true by (symmetry; apply Z.leb_le; lia).
        right. exists p1, f. repeat split; [lia|]. fold Bf. lia.
      * assert (Hn2 : Zpos n2 = d2 - prec) by (unfold fexp in En2; lia).
        rewrite iter_shr_m by (cbn; lia). cbn [shr_m].
        assert (P2n2 : 0 < 2 ^ Zpos n2) by (apply Z.pow_pos_nonneg; lia).
        assert (Hq : 0 <= Zpos p1 / 2 ^ Zpos n2 <= Zpos mb * 2 ^ (eb - (f + Zpos n2))).
        { split; [apply Z.div_pos; lia|].
          apply Z.div_le_upper_bound; [exact P2n2|].
          replace (2 ^ Zpos n2 * (Zpos mb * 2 ^ (eb - (f + Zpos n2)))) with Bf; [lia|].
          unfold Bf. replace (eb - f) with (Zpos n2 + (eb - (f + Zpos n2))) by lia.
          rewrite pow_split by lia. lia. }
        destruct (Zpos p1 / 2 ^ Zpos n2) as [|p2|p2] eqn:Ep2; [left; reflexivity | | lia].
        replace (f + Zpos n2 <=? emax - prec) with true by (symmetry; apply Z.leb_le; lia).
        right. exists p2, (f + Zpos n2). repeat split; [lia | lia].
      * replace (f <=? emax - prec) with true by (symmetry; apply Z.leb_le; lia).
        right. exists p1, f. repeat split; [lia|]. fold Bf. lia.
  - (* the exponent is above the target: nothing to do *)
    cbn [Zdigits2]. fold f. rewrite En. cbn [shr shr_record_of_loc shr_m].
    replace (e <=? emax - prec) with true by (symmetry; apply Z.leb_le; lia).
    right. exists M, e. repeat split; assumption.
Qed.

Lemma iter_xO (M j : positive) : Zpos (Pos.iter xO M j) = Zpos M * 2 ^ Zpos j.
Proof.
  induction j as [|j IH] using Pos.peano_ind.
  - cbn [Pos.iter]. lia.
  - rewrite Pos.iter_succ, Pos2Z.inj_succ, Z.pow_succ_r by lia.
    rewrite Pos2Z.inj_xO, IH. lia.
Qed.

Lemma normalize_le (M : Z) (e : Z) (mb : positive) (eb : Z) :
  Zpos (digits2_pos mb) <= prec ->
  emin prec emax <= eb <= emax - prec ->
  e <= eb ->
  0 <= M <= Zpos mb * 2 ^ (eb - e) ->
  below (binary_normalize prec emax M e false) mb eb.
Proof.
  intros Hmb Heb He HM.
  destruct M as [|M|M]; [left; reflexivity | | lia].
  unfold binary_normalize, binary_round, shl_align.
  set (f := fexp prec emax (Zpos (digits2_pos M) + e)).
  destruct (f - e) as [|j|j] eqn:Ej.
  - apply round_aux_le; try assumption. lia.
  - apply round_aux_le; try assumption. lia.
  - apply round_aux_le; try assumption; [lia|].
    rewrite iter_xO.
    replace (eb - f) with ((eb - e) + Zpos j) by lia.
    rewrite pow_split by lia.
    assert (0 < 2 ^ Zpos j) by (apply Z.pow_pos_nonneg; lia). nia.
Qed.

Lemma below_compare (x : spec_float) (mb : positive) (eb : Z) :
  below x mb eb ->
  SFleb (S754_zero false) x = true /\ SFleb x (S754_finite false mb eb) = true.
Proof.
  intros [->|(m' & e' & -> & He & Hm)]; [split; reflexivity|].
  split; [reflexivity|].
  unfold SFleb, SFcompare.
  destruct (Z.compare_spec e' eb) as [E|E|E]; [|reflexivity|lia].
  subst e'. rewrite Z.sub_diag in Hm. change (2 ^ 0) with 1 in Hm.
  rewrite Pos.compare_cont_spec. cbn [Pos.switch_Eq].
  destruct (Pos.compare_spec m' mb); try reflexivity. lia.
Qed.

End B64Exact.

(** *** Scaling by a power of two *)

Module B64Scale.
Import B64 B64Exact.
Local Open Scope Z_scope.

Lemma shr_record_mantissa (m : Z) (l : location) :
  shr_m (shr_record_of_loc m l) = m.
Proof. destruct l as [|[| |]]; reflexivity. Qed.

Lemma shr_fexp_mantissa_nonneg (m e : Z) (l : location) :
  0 <= m -> 0 <= shr_m (fst (shr_fexp prec emax m e l)).
Proof.
  intros Hm. unfold shr_fexp, shr.
  destruct (fexp prec emax (Zdigits2 m + e) - e); cbn [fst];
    try (rewrite shr_record_mantissa; exact Hm).
  rewrite iter_shr_m by (rewrite shr_record_mantissa; exact Hm).
  rewrite shr_record_mantissa. apply Z.div_pos; [exact Hm|].
  apply Z.pow_pos_nonneg; lia.
Qed.

Lemma fexp_unclipped (x : Z) :
  emin prec emax + prec <= x -> fexp prec emax x = x - prec.
Proof. unfold fexp. lia. Qed.

(** Moving the exponent of the input of a rounding that stays clear of the
    subnormal range moves the exponent of the shifted mantissa. *)
Lemma shr_fexp_shift (M : positive) (e k : Z) (l : location) :
  emin prec emax + prec <= Zpos (digits2_pos M) + e ->
  emin prec emax + prec <= Zpos (digits2_pos M) + e + k ->
  shr_fexp prec emax (Zpos M) (e + k) l
  = (fst (shr_fexp prec emax (Zpos M) e l), snd (shr_fexp prec emax (Zpos M) e l) + k).
Proof.
  intros H1 H2. unfold shr_fexp. cbn [Zdigits2].
  rewrite (fexp_unclipped (Zpos (digits2_pos M) + (e + k))) by lia.
  rewrite (fexp_unclipped (Zpos (digits2_pos M) + e)) by lia.
  replace (Zpos (digits2_pos M) + (e + k) - prec - (e + k))
    with (Zpos (digits2_pos M) + e - prec - e) by lia.
  unfold shr.
  destruct (Zpos (digits2_pos M) + e - prec - e); cbn [fst snd]; f_equal; lia.
Qed.

(** What the first shift leaves has no fewer significant bits, counted
    with the exponent, than what it was given. *)
Lemma shr_fexp_binade (M : positive) (e : Z) (l : location) (r : positive) :
  emin prec emax + prec <= Zpos (digits2_pos M) + e ->
  shr_m (fst (shr_fexp prec emax (Zpos M) e l)) <= Zpos r ->
  Zpos (digits2_pos M) + e
  <= Zpos (digits2_pos r) + snd (shr_fexp prec emax (Zpos M) e l).
Proof.
  intros H1. unfold shr_fexp. cbn [Zdigits2].
  rewrite (fexp_unclipped (Zpos (digits2_pos M) + e)) by lia.
  pose proof (digits_bounds M) as [BM _].
  set (d := Zpos (digits2_pos M)) in *.
  unfold shr.
  destruct (d + e - prec - e) as [|n|n] eqn:En; cbn [fst snd].
  - rewrite shr_record_mantissa. intros Hr.
    assert (d <= Zpos (digits2_pos r)); [|lia].
    pose proof (digits_lower r (d - 1)). lia.
  - rewrite iter_shr_m by (rewrite shr_record_mantissa; lia).
    rewrite shr_record_mantissa. intros Hr.
    assert (prec <= Zpos (digits2_pos r)); [|lia].
    assert (Hq : 2 ^ (prec - 1) <= Zpos M / 2 ^ Zpos n).
    { apply Z.div_le_lower_bound; [apply Z.pow_pos_nonneg; lia|].
      rewrite <- Z.pow_add_r by (unfold prec; lia).
      replace (Zpos n + (prec - 1)) with (d - 1) by lia. exact BM. }
    pose proof (digits_lower r (prec - 1)). lia.
  - rewrite shr_record_mantissa. intros Hr.
    assert (d <= Zpos (digits2_pos r)); [|lia].
    pose proof (digits_lower r (d - 1)). lia.
Qed.

(** A rounding that stays clear of the subnormal range and of overflow
    commutes with a move of the exponent. *)
Lemma round_aux_shift (s : bool) (M : positive) (e k : Z) (l : location) :
  emin prec emax + prec <= Zpos (digits2_pos M) + e ->
  emin prec emax + prec <= Zpos (digits2_pos M) + e + k ->
  is_inf (binary_round_aux prec emax s (Zpos M) e l) = false ->
  is_inf (binary_round_aux prec emax s (Zpos M) (e + k) l) = false ->
  binary_round_aux prec emax s (Zpos M) (e + k) l
  = scale2 k (binary_round_aux prec emax s (Zpos M) e l).
Proof.
  intros H1 H2. unfold binary_round_aux.
  rewrite (shr_fexp_shift M e k l H1 H2).
  pose proof (shr_fexp_binade M e l) as Hbin.
  pose proof (shr_fexp_mantissa_nonneg (Zpos M) e l) as Hpos.
  destruct (shr_fexp prec emax (Zpos M) e l) as [mrs' e1]. cbn [fst snd] in *.
  pose proof (round_bounds (shr_m mrs') (loc_of_shr_record mrs')) as Hr.
  set (m1r := round_nearest_even (shr_m mrs') (loc_of_shr_record mrs')) in *.
  destruct m1r as [|r|r] eqn:Em1r.
  - (* nothing left: both are zeros *)
    destruct (shr_fexp prec emax 0 e1 loc_Exact) as [a1 a2] eqn:Ea.
    destruct (shr_fexp prec emax 0 (e1 + k) loc_Exact) as [b1 b2] eqn:Eb.
    assert (Za : shr_m a1 = 0).
    { unfold shr_fexp, shr in Ea. cbn [Zdigits2 shr_record_of_loc] in Ea.
      destruct (fexp prec emax (0 + e1) - e1); injection Ea as <- _; try reflexivity.
      rewrite iter_shr_m by (cbn; lia). reflexivity. }
    assert (Zb : shr_m b1 = 0).
    { unfold shr_fexp, shr in Eb. cbn [Zdigits2 shr_record_of_loc] in Eb.
      destruct (fexp prec emax (0 + (e1 + k)) - (e1 + k)); injection Eb as <- _; try reflexivity.
      rewrite iter_shr_m by (cbn; lia). reflexivity. }
    rewrite Za, Zb. reflexivity.
  - specialize (Hbin r H1 ltac:(lia)).
    rewrite (shr_fexp_shift r e1 k loc_Exact) by lia.
    destruct (shr_fexp prec emax (Zpos r) e1 loc_Exact) as [mrs'' e2]. cbn [fst snd].
    destruct (shr_m mrs'') as [|m2|m2]; [reflexivity | | reflexivity].
    destruct (e2 <=? emax - prec), (e2 + k <=? emax - prec); cbn [is_inf scale2];
      intros Hi1 Hi2; try discriminate; reflexivity.
  - specialize (Hpos ltac:(lia)). lia.
Qed.

(** The quotient that [SFdiv] rounds has at least the bits of the binade
    of the exact quotient. *)
Lemma div_core_binade (m1 : positive) (e1 : Z) (m2 : positive) (e2 : Z) :
  let X := Zpos (digits2_pos m1) + e1 - (Zpos (digits2_pos m2) + e2) in
  emin prec emax + prec <= X ->
  exists q lz,
    SFdiv_core_binary prec emax (Zpos m1) e1 (Zpos m2) e2
    = (Zpos q, Z.min (X - prec) (e1 - e2), lz)
    /\ X <= Zpos (digits2_pos q) + Z.min (X - prec) (e1 - e2).
Proof.
  intros X HX. unfold SFdiv_core_binary. cbn [Zdigits2]. fold X.
  rewrite (fexp_unclipped X HX).
  set (e' := Z.min (X - prec) (e1 - e2)).
  set (s := e1 - e2 - e').
  pose proof (digits_bounds m1) as [B1 _].
  pose proof (digits_bounds m2) as [_ B2].
  set (d1 := Zpos (digits2_pos m1)) in *.
  set (d2 := Zpos (digits2_pos m2)) in *.
  assert (Hs : 0 <= s) by (unfold s, e'; lia).
  assert (Ht : 0 <= d1 + s - d2 - 1) by (unfold s, e', X, prec in *; lia).
  set (m' := match s with Z0 => Zpos m1 | Zpos _ => Z.shiftl (Zpos m1) s | Zneg _ => 0 end).
  assert (Hm' : m' = Zpos m1 * 2 ^ s).
  { unfold m'. destruct s as [|p|p] eqn:Es; [cbn; lia | | lia].
    now rewrite Z.shiftl_mul_pow2 by lia. }
  assert (Hlow : 2 ^ (d1 + s - d2 - 1) * 2 ^ d2 <= m').
  { rewrite Hm', <- Z.pow_add_r by lia.
    replace (d1 + s - d2 - 1 + d2) with ((d1 - 1) + s) by lia.
    rewrite Z.pow_add_r by lia.
    apply Z.mul_le_mono_nonneg_r; [apply Z.pow_nonneg; lia | exact B1]. }
  pose proof (Z_div_mod m' (Zpos m2) eq_refl) as Hdiv.
  destruct (Z.div_eucl m' (Zpos m2)) as [q r]. destruct Hdiv as [Hq Hr].
  assert (P : 0 < 2 ^ (d1 + s - d2 - 1)) by (apply Z.pow_pos_nonneg; lia).
  assert (Hqlow : 2 ^ (d1 + s - d2 - 1) <= q).
  { destruct (Z_lt_le_dec q (2 ^ (d1 + s - d2 - 1))) as [Hlt|]; [|assumption].
    exfalso.
    assert (Zpos m2 * q <= Zpos m2 * (2 ^ (d1 + s - d2 - 1) - 1))
      by (apply Z.mul_le_mono_nonneg_l; lia).
    assert (2 ^ (d1 + s - d2 - 1) * Zpos m2 < 2 ^ (d1 + s - d2 - 1) * 2 ^ d2)
      by (apply Z.mul_lt_mono_pos_l; lia).
    lia. }
  destruct q as [|q|q]; [lia | | lia].
  exists q, (new_location (Zpos m2) r). split; [reflexivity|].
  pose proof (digits_lower q (d1 + s - d2 - 1) Hqlow).
  unfold s in *. unfold X. lia.
Qed.

(** Dividing the activity scaled by 2^k gives the rate scaled by 2^k, when
    the quotient stays clear of the subnormal range and of overflow. *)
Lemma div_scale (k : Z) (s1 : bool) (m1 : positive) (e1 : Z)
      (s2 : bool) (m2 : positive) (e2 : Z) :
  let a := S754_finite s1 m1 e1 in
  let o := S754_finite s2 m2 e2 in
  emin prec emax + prec <= binade a - binade o ->
  emin prec emax + prec <= binade a + k - binade o ->
  is_inf (SFdiv prec emax a o) = false ->
  is_inf (SFdiv prec emax (scale2 k a) o) = false ->
  SFdiv prec emax (scale2 k a) o = scale2 k (SFdiv prec emax a o).
Proof.
  intros a o. subst a o. cbn [binade scale2 SFdiv]. intros HX HXk.
  destruct (div_core_binade m1 e1 m2 e2 HX) as (q & lz & Ecore & Hq).
  destruct (div_core_binade m1 (e1 + k) m2 e2 ltac:(lia)) as (q' & lz' & Ecore' & Hq').
  assert (Esame : SFdiv_core_binary prec emax (Zpos m1) (e1 + k) (Zpos m2) e2
                  = (Zpos q, Z.min (Zpos (digits2_pos m1) + e1
                                    - (Zpos (digits2_pos m2) + e2) - prec) (e1 - e2) + k, lz)).
  { revert Ecore. unfold SFdiv_core_binary. cbn [Zdigits2].
    rewrite !fexp_unclipped by lia.
    replace (Z.min (Zpos (digits2_pos m1) + (e1 + k) - (Zpos (digits2_pos m2) + e2) - prec)
                   (e1 + k - e2))
      with (Z.min (Zpos (digits2_pos m1) + e1 - (Zpos (digits2_pos m2) + e2) - prec)
                  (e1 - e2) + k) by lia.
    set (e' := Z.min _ (e1 - e2)).
    replace (e1 + k - e2 - (e' + k)) with (e1 - e2 - e') by lia.
    destruct (Z.div_eucl _ (Zpos m2)) as [q0 r0].
    intros E. congruence. }
  rewrite Esame, Ecore.
  apply round_aux_shift; lia.
Qed.

(** The ratio of two numbers scaled by one power of two is the ratio of
    the numbers. *)
Lemma div_scale_both (k : Z) (r m : spec_float) :
  SFdiv prec emax (scale2 k r) (scale2 k m) = SFdiv prec emax r m.
Proof.
  destruct r as [sr|sr| |sr mr er], m as [sm|sm| |sm mm em]; try reflexivity.
  cbn [scale2 SFdiv]. unfold SFdiv_core_binary.
  replace (Zdigits2 (Zpos mr) + (er + k) - (Zdigits2 (Zpos mm) + (em + k)))
    with (Zdigits2 (Zpos mr) + er - (Zdigits2 (Zpos mm) + em)) by lia.
  replace (er + k - (em + k)) with (er - em) by lia.
  reflexivity.
Qed.

Lemma ltb_zero_scale (k : Z) (v : spec_float) :
  SFltb (S754_zero false) (scale2 k v) = SFltb (S754_zero false) v.
Proof. destruct v; reflexivity. Qed.

(** Multiplying a normal number by 2^k moves its exponent by [k], when the
    product is a normal number too. *)
Lemma mul_pow2 (k : Z) (s : bool) (m : positive) (e : Z) :
  digits2_pos m = 53%positive ->
  emin prec emax <= e + k <= emax - prec ->
  SFmul prec emax (pow2 k) (S754_finite s m e) = S754_finite s m (e + k).
Proof.
  intros Hd He. unfold pow2. cbn [SFmul xorb].
  pose proof (digits_bounds m) as Bm. rewrite Hd in Bm.
  set (P := (4503599627370496 * m)%positive).
  assert (HP : Zpos P = Zpos m * 2 ^ 52) by (unfold P; lia).
  assert (HdP : Zpos (digits2_pos P) = 105).
  { apply Z.le_antisymm.
    - apply digits_upper. rewrite HP.
      change (2 ^ 105) with (2 ^ 53 * 2 ^ 52). lia.
    - pose proof (digits_lower P 104). apply H. rewrite HP.
      change (2 ^ 104) with (2 ^ (53 - 1) * 2 ^ 52). lia. }
  unfold binary_round_aux, shr_fexp. cbn [Zdigits2]. rewrite HdP.
  rewrite fexp_unclipped by (unfold prec, emin, emax in *; lia).
  replace (105 + (k - 52 + e) - prec - (k - 52 + e)) with 52 by (unfold prec; lia).
  cbn [shr shr_record_of_loc].
  set (mrs := iter_pos shr_1 52 _).
  assert (Hm : shr_m mrs = Zpos m).
  { unfold mrs. rewrite iter_shr_m by (cbn; lia). cbn [shr_m].
    rewrite HP. apply Z.div_mul. lia. }
  assert (Hs : sticky mrs = false).
  { unfold mrs. rewrite iter_sticky by (cbn; lia). cbn [shr_m sticky orb].
    rewrite HP, Z.mod_mul by lia. reflexivity. }
  rewrite (round_exact mrs Hs), Hm. cbn [Zdigits2]. rewrite Hd.
  rewrite fexp_unclipped by (unfold prec, emin, emax in *; lia).
  replace (53 + (k - 52 + e + 52) - prec - (k - 52 + e + 52)) with 0 by (unfold prec; lia).
  cbn [shr shr_record_of_loc shr_m].
  replace (k - 52 + e + 52 <=? emax - prec) with true
    by (symmetry; apply Z.leb_le; lia).
  f_equal. lia.
Qed.
End B64Scale.

Module B64ScaleFacts.
Import B64 B64Exact B64Scale.
Local Open Scope Z_scope.

Lemma mul_scales (k : Z) (a : spec_float) :
  scales_exactly k a = true -> nmul (pow2 k) a = scale2 k a.
Proof.
  destruct a as [s|s| |s m e]; cbn [scales_exactly]; try reflexivity.
  intros H. apply andb_prop in H as [H H3]. apply andb_prop in H as [H1 H2].
  apply Z.eqb_eq in H1. apply Z.leb_le in H2, H3.
  apply mul_pow2; [congruence | unfold emin, emax, prec; lia].
Qed.

Lemma div_scales (k : Z) (a o : spec_float) :
  quotient_scales k a o = true ->
  ndiv (scale2 k a) o = scale2 k (ndiv a o).
Proof.
  destruct a as [sa|sa| |sa ma ea], o as [so|so| |so mo eo]; try reflexivity.
  unfold quotient_scales. intros H.
  apply andb_prop in H as [H H4]. apply andb_prop in H as [H H3].
  apply andb_prop in H as [H1 H2].
  apply Z.leb_le in H1, H2. apply negb_true_iff in H3, H4.
  apply div_scale; try assumption; unfold emin, emax, prec; lia.
Qed.

Lemma filter_map_commute_in {A B} (f : A -> B) (p : B -> bool) (q : A -> bool) l :
  (forall v, In v l -> p (f v) = q v) -> filter p (map f l) = map f (filter q l).
Proof.
  induction l as [|v l IH]; intros Hpq; cbn [map filter]; [reflexivity|].
  rewrite (Hpq v) by now left.
  rewrite IH by (intros w Hw; apply Hpq; now right).
  destruct (q v); reflexivity.
Qed.

Lemma visited_bins_scaled (k : Z) (tc occ : list spec_float) :
  visited_bins (map (nmul (pow2 k)) tc) occ
  = map (scale_bin k) (visited_bins tc occ).
Proof.
  unfold visited_bins. rewrite combine_map_l.
  apply filter_map_commute. intros [a o]. reflexivity.
Qed.

Section ScaledBins.
Variable array_sum : list spec_float -> spec_float.
Variable log2 : spec_float -> spec_float.
Variable k : Z.
Variable vb : list (bin (F:=spec_float)).
Hypothesis bins_scale :
  Forall (fun b => scales_exactly k (activity b) = true
                   /\ quotient_scales k (activity b) (occupancy_of b) = true) vb.
Hypothesis total_scales :
  total_activity array_sum (map (scale_bin k) vb)
  = scale2 k (total_activity array_sum vb).
Hypothesis mean_scales :
  quotient_scales k (total_activity array_sum vb) (total_occupancy array_sum vb) = true.

Lemma bin_rate_scaled (b : bin) :
  In b vb -> bin_rate (scale_bin k b) = scale2 k (bin_rate b).
Proof.
  intros Hb. rewrite Forall_forall in bins_scale.
  destruct (bins_scale b Hb) as [H1 H2].
  unfold bin_rate, scale_bin. cbn [activity occupancy_of fst snd].
  rewrite (mul_scales k _ H1). now apply div_scales.
Qed.

Lemma has_rate_scaled (b : bin) :
  In b vb -> has_rate (scale_bin k b) = has_rate b.
Proof.
  intros Hb. unfold has_rate. rewrite (bin_rate_scaled b Hb).
  apply ltb_zero_scale.
Qed.

Lemma total_occupancy_scaled :
  total_occupancy array_sum (map (scale_bin k) vb) = total_occupancy array_sum vb.
Proof. unfold total_occupancy. now rewrite map_map. Qed.

Lemma mean_rate_scaled :
  mean_rate array_sum (map (scale_bin k) vb) = scale2 k (mean_rate array_sum vb).
Proof.
  unfold mean_rate. rewrite total_occupancy_scaled, total_scales.
  now apply div_scales.
Qed.

Lemma bin_term_scaled (b : bin) :
  In b vb ->
  bin_term array_sum log2 (map (scale_bin k) vb) (scale_bin k b)
  = bin_term array_sum log2 vb b.
Proof.
  intros Hb. unfold bin_term.
  rewrite (bin_rate_scaled b Hb), mean_rate_scaled.
  change (ndiv (scale2 k (bin_rate b)) (scale2 k (mean_rate array_sum vb)))
    with (SFdiv prec emax (scale2 k (bin_rate b)) (scale2 k (mean_rate array_sum vb))).
  rewrite div_scale_both.
  unfold bin_prob. rewrite total_occupancy_scaled. reflexivity.
Qed.

Lemma information_terms_scaled :
  map (bin_term array_sum log2 (map (scale_bin k) vb))
      (filter has_rate (map (scale_bin k) vb))
  = map (bin_term array_sum log2 vb) (filter has_rate vb).
Proof.
  rewrite (filter_map_commute_in (scale_bin k) has_rate has_rate)
    by (intros b Hb; now apply has_rate_scaled).
  rewrite map_map. apply map_ext_in.
  intros b Hb. apply filter_In in Hb as [Hb _]. now apply bin_term_scaled.
Qed.
End ScaledBins.
End B64ScaleFacts.


(** In binary64 the scaling itself can overflow.  With a single visited bin
    of activity 2^1023 the rate equals the mean rate and the result is
    0 + log2 1; scaled by 2 the activity is infinite, rate / mean rate is
    infinity / infinity, and the result is not-a-number whatever [log2] is. *)
Lemma scaled_by_two_overflows (log2 : spec_float -> spec_float) :
  spatial_information Example.array_sum log2
                      (map (nmul (Example.fl 2)) [Example.two_pow_1023])
                      [Example.fl 1]
  = Ok S754_nan
  /\ spatial_information Example.array_sum log2 [Example.two_pow_1023]
                         [Example.fl 1]
     = Ok (nadd nzero (nmul (Example.fl 1) (log2 (Example.fl 1)))).
Proof. split; reflexivity. Qed.

(** The scaling can also underflow.  The activities 2^-1073, 2^-1073 and 0
    over the occupancies 1, 1 and 2 have rate / mean rate = 2 in the first
    two bins and spatial information 1/4 * 2 * log2 2 twice; scaled by 1/4
    the activities round to zero and no bin has a rate, whatever [log2]
    is. *)
Lemma scaled_by_a_quarter_underflows (log2 : spec_float -> spec_float) :
  let tuning_curve := [Example.two_pow_m1073; Example.two_pow_m1073; Example.fl 0] in
  let occupancy := [Example.fl 1; Example.fl 1; Example.fl 2] in
  let half_of_log2_2 :=
    nmul (nmul (B64.pow2 (-2)) (Example.fl 2)) (log2 (Example.fl 2)) in
  spatial_information Example.array_sum log2
                      (map (nmul (B64.pow2 (-2))) tuning_curve) occupancy
  = Ok (S754_zero false)
  /\ spatial_information Example.array_sum log2 tuning_curve occupancy
     = Ok (nadd (nadd nzero half_of_log2_2) half_of_log2_2).
Proof. split; reflexivity. Qed.


Set Implicit Arguments.

(** ** C7: circular coordinates *)

Lemma nth_map_in_range {A B} (f : A -> B) (l : list A) i d d' :
  i < length l -> nth i (map f l) d = f (nth i l d').
Proof.
  revert i; induction l as [|v l IH]; intros [|i] Hi; simpl in *; try lia.
  - reflexivity.
  - apply IH. lia.
Qed.

Lemma map_const_repeat {A B} (c : B) (l : list A) :
  map (fun _ => c) l = repeat c (length l).
Proof. induction l as [|v l IH]; simpl; [reflexivity|]. now rewrite IH. Qed.

Unset Implicit Arguments.

Module B64Circular.
Import B64 B64Exact.
Local Open Scope Z_scope.

Lemma round_aux_sign (M : Z) (e : Z) (l : location) :
  binary_round_aux prec emax true M e l
  = SFopp (binary_round_aux prec emax false M e l).
Proof.
  unfold binary_round_aux.
  destruct (shr_fexp prec emax M e l) as [mrs' e'].
  destruct (shr_fexp prec emax _ e' loc_Exact) as [mrs'' e''].
  destruct (shr_m mrs''); [reflexivity | | reflexivity].
  destruct (e'' <=? emax - prec); reflexivity.
Qed.

Lemma normalize_neg (R : positive) (e : Z) :
  binary_normalize prec emax (Zneg R) e true
  = SFopp (binary_normalize prec emax (Zpos R) e false).
Proof.
  unfold binary_normalize, binary_round.
  destruct (shl_align R e _) as [mz ez]. apply round_aux_sign.
Qed.

Lemma shl_align_value (m : positive) (e e' : Z) :
  e' <= e -> Zpos (fst (shl_align m e e')) = Zpos m * 2 ^ (e - e').
Proof.
  intros He. unfold shl_align.
  destruct (e' - e) as [|j|j] eqn:Ej; cbn [fst].
  - replace (e - e') with 0 by lia. cbn. lia.
  - lia.
  - rewrite iter_xO. f_equal. f_equal. lia.
Qed.

(** With a positive finite modulus [b], [np.mod(a, b)] is not-a-number when
    [a] is not finite, and otherwise lies between 0 and [b], both ends
    included. *)
Lemma np_mod_range (a : spec_float) (mb : positive) (eb : Z) :
  Zpos (digits2_pos mb) <= prec ->
  emin prec emax <= eb <= emax - prec ->
  let b := S754_finite false mb eb in
  if is_nan a || is_inf a then np_mod a b = S754_nan
  else SFleb (S754_zero false) (np_mod a b) = true
       /\ SFleb (np_mod a b) b = true.
Proof.
  intros Hmb Heb b. subst b.
  destruct a as [sa|sa| |sa ma ea]; cbn [is_nan is_inf orb]; try reflexivity.
  - (* a zero *) split; reflexivity.
  - (* a finite number *)
    unfold np_mod. cbn [is_zero fmod].
    set (e := Z.min ea eb).
    set (B := Zpos mb * 2 ^ (eb - e)).
    set (r := (Zpos ma * 2 ^ (ea - e)) mod B).
    assert (PB : 0 < B).
    { unfold B. apply Z.mul_pos_pos; [lia|]. apply Z.pow_pos_nonneg; lia. }
    pose proof (Z.mod_pos_bound (Zpos ma * 2 ^ (ea - e)) B PB) as Hr. fold r in Hr.
    assert (Hx : below (binary_normalize prec emax r e false) mb eb).
    { apply normalize_le; try assumption; [lia|]. fold B. lia. }
    destruct sa.
    + (* a negative *)
      destruct r as [|R|R] eqn:Er; [split; reflexivity | | lia].
      cbn [Z.opp]. rewrite normalize_neg.
      destruct Hx as [->|(m' & e' & -> & He' & Hm')]; [split; reflexivity|].
      cbn [SFopp negb is_zero].
      change (SFltb (S754_finite false mb eb) (S754_zero false)) with false.
      change (SFltb (S754_finite true m' e') (S754_zero false)) with true.
      cbn [xorb SFadd].
      apply below_compare.
      replace (Z.min e' eb) with e' by lia.
      apply normalize_le; try assumption.
      cbn [cond_Zopp].
      rewrite !shl_align_value by lia.
      rewrite Z.sub_diag. change (2 ^ 0) with 1. lia.
    + (* a positive *)
      destruct Hx as [->|(m' & e' & -> & He' & Hm')]; [split; reflexivity|].
      cbn [is_zero].
      change (SFltb (S754_finite false mb eb) (S754_zero false)) with false.
      change (SFltb (S754_finite false m' e') (S754_zero false)) with false.
      cbn [xorb].
      apply below_compare. right. exists m', e'. repeat split; assumption.
Qed.
End B64Circular.

(** C7 (as amended).  In binary64, on a non-empty trajectory the circular
    branch of the constructor raises nothing; afterwards every stored
    y-coordinate is zero, and every stored x-coordinate is
    [np.mod(angle + pi/2, 2 pi)], with [angle] the polar angle of the
    position taken from the mean of the extrema.  It lies in the interval
    from 0 to [2 * np.pi], both ends included, unless [angle + pi/2] is
    not-a-number or infinite, in which case it is not-a-number. *)
Theorem circular_track_coordinates :
  forall (array_sum : list spec_float -> spec_float)
         (arctan2 : spec_float -> spec_float -> spec_float)
         (x y : list spec_float),
    x <> [] ->
    length x = length y ->
    exists x_min x_max y_min y_max x' y' radius,
      py_min x = Ok x_min /\ py_max x = Ok x_max /\
      py_min y = Ok y_min /\ py_max y = Ok y_max /\
      init_circular array_sum B64.pi arctan2 B64.np_mod x y = Ok (x', y', radius) /\
      y' = repeat (S754_zero false) (length x) /\
      length x' = length x /\
      forall i, i < length x ->
        let center0 := np_mean array_sum [x_min; x_max] in
        let center1 := np_mean array_sum [y_min; y_max] in
        let angle := arctan2 (nsub (nth i y nzero) center1)
                             (nsub (nth i x nzero) center0) in
        let turned := nadd angle (ndiv B64.pi (nof_Z 2)) in
        nth i x' nzero = B64.np_mod turned B64.two_pi
        /\ if B64.is_nan turned || B64.is_inf turned
           then nth i x' nzero = S754_nan
           else SFleb (S754_zero false) (nth i x' nzero) = true
                /\ SFleb (nth i x' nzero) B64.two_pi = true.
Proof.
  intros array_sum arctan2 x y Hne Hlen.
  destruct x as [|x0 xs]; [congruence|].
  destruct y as [|y0 ys]; [discriminate|].
  set (x := x0 :: xs) in *. set (y := y0 :: ys) in *.
  destruct (py_min x) as [x_min|] eqn:Exmin; [|discriminate].
  destruct (py_max x) as [x_max|] eqn:Exmax; [|discriminate].
  destruct (py_min y) as [y_min|] eqn:Eymin; [|discriminate].
  destruct (py_max y) as [y_max|] eqn:Eymax; [|discriminate].
  exists x_min, x_max, y_min, y_max.
  unfold init_circular. rewrite Exmin, Exmax, Eymin, Eymax. cbn [rbind].
  unfold cart2pol.
  rewrite !broadcast2_same_length by (rewrite !length_map; exact Hlen).
  cbn [rbind].
  eexists _, _, _.
  split; [reflexivity|]. split; [reflexivity|]. split; [reflexivity|].
  split; [reflexivity|]. split; [reflexivity|].
  set (cx := np_mean array_sum [x_min; x_max]).
  set (cy := np_mean array_sum [y_min; y_max]).
  set (angles := zip_with (fun vx vy => arctan2 vy vx)
                          (map (fun v => nsub v cx) x)
                          (map (fun v => nsub v cy) y)).
  assert (Hangles : length angles = length x).
  { unfold angles. rewrite length_zip_with by (rewrite !length_map; exact Hlen).
    apply length_map. }
  split; [|split].
  - now rewrite map_const_repeat, !length_map, Hangles.
  - now rewrite !length_map.
  - intros i Hi.
    assert (Hx' : nth i (map (fun a => B64.np_mod a (nmul (nof_Z 2) B64.pi))
                          (map (fun a => nadd a (ndiv B64.pi (nof_Z 2))) angles)) nzero
                  = B64.np_mod
                      (nadd (arctan2 (nsub (nth i y nzero) cy) (nsub (nth i x nzero) cx))
                            (ndiv B64.pi (nof_Z 2)))
                      B64.two_pi).
    { rewrite (nth_map_in_range _ _ nzero nzero) by (now rewrite length_map, Hangles).
      rewrite (nth_map_in_range _ _ nzero nzero) by (now rewrite Hangles).
      unfold angles.
      rewrite nth_zip_with by (rewrite ?length_map; assumption).
      rewrite (nth_map_in_range _ x nzero nzero) by exact Hi.
      rewrite (nth_map_in_range _ y nzero nzero) by (rewrite <- Hlen; exact Hi).
      reflexivity. }
    cbv zeta. rewrite Hx'. split; [reflexivity|].
    apply (B64Circular.np_mod_range _ 7074237752028440 (-50)).
    + apply Z.leb_le. reflexivity.
    + unfold emin, B64.emax, B64.prec. lia.
Qed.

(** C7 (as stated) fails in binary64: the upper end of the interval is
    reached.  Of the two positions (-2^-52, -1) and (2^-52, 1), whose center
    is the origin, the first has the polar angle -pi/2 - 2^-52; turned by
    pi/2 it is -2^-52, to which [np.mod] adds 2 pi, and the sum rounds to
    [2 * np.pi]: the stored x-coordinate is [2 * np.pi] itself, which is
    not below [2 * np.pi]. *)
Lemma circular_coordinate_reaches_two_pi :
  let x := [SFopp Example.two_pow_m52; Example.two_pow_m52] in
  let y := [Example.fl (-1); Example.fl 1] in
  init_circular Example.array_sum B64.pi Example.arctan2_near_axis B64.np_mod x y
  = Ok ([B64.two_pi; B64.pi], [S754_zero false; S754_zero false],
        S754_finite false 4503599627370497 (-53))
  /\ nmul (nof_Z 2) B64.pi = B64.two_pi
  /\ SFltb B64.two_pi (nmul (nof_Z 2) B64.pi) = false.
Proof. repeat split. Qed.

Set Implicit Arguments.

(** ** C8: the running filter *)

Section VelocityFacts.
Context {F : Type} `{Numeric F}.

Lemma length_dist_from (x y : list F) :
  forall px py, length x = length y -> length (dist_from px py x y) = length x.
Proof.
  revert y; induction x as [|vx x IH]; intros [|vy y] px py E; simpl in *;
    try congruence.
  now rewrite IH by congruence.
Qed.

Lemma nth_dist_from (x y : list F) :
  forall px py i, length x = length y -> i < length x ->
    nth i (dist_from px py x y) nzero
    = euclid (nsub (nth i x nzero) (nth i (px :: x) nzero))
             (nsub (nth i y nzero) (nth i (py :: y) nzero)).
Proof.
  revert y; induction x as [|vx x IH]; intros [|vy y] px py i E Hi; simpl in *;
    try lia; try congruence.
  destruct i as [|i]; [reflexivity|].
  rewrite IH by (congruence || lia). reflexivity.
Qed.

Lemma length_diff_from (a : list F) :
  forall prev, length (diff_from prev a) = length a.
Proof. induction a as [|v a IH]; intros prev; simpl; [reflexivity|]. now rewrite IH. Qed.

Lemma nth_diff_from (a : list F) :
  forall prev i, i < length a ->
    nth i (diff_from prev a) nzero = nsub (nth i a nzero) (nth i (prev :: a) nzero).
Proof.
  induction a as [|v a IH]; intros prev i Hi; simpl in *; [lia|].
  destruct i as [|i]; [reflexivity|].
  rewrite IH by lia. reflexivity.
Qed.

Lemma consecutive_dist_padded (x y : list F) :
  length x = length y ->
  exists d, consecutive_dist x y true = Ok d
            /\ length d = Nat.max 1 (length x)
            /\ forall i, i < length x -> nth i d nzero = sample_distance x y i.
Proof.
  intros E. unfold consecutive_dist. rewrite E, Nat.eqb_refl.
  destruct x as [|vx x], y as [|vy y]; try discriminate.
  - eexists; split; [reflexivity|]. split; [reflexivity|]. simpl; lia.
  - eexists; split; [reflexivity|]. simpl in E. split.
    + simpl. now rewrite length_dist_from by congruence.
    + intros [|i] Hi; [reflexivity|].
      cbn [nth sample_distance].
      rewrite nth_dist_from by (simpl in Hi; congruence || lia).
      reflexivity.
Qed.

Lemma elapsed_from_diff (t : list F) i :
  i < length t ->
  nth i (np_diff_prepend0 (map (fun v => ndiv v (nof_Z 1000)) t)) nzero
  = elapsed_seconds t i.
Proof.
  intros Hi. unfold np_diff_prepend0.
  rewrite nth_diff_from by now rewrite length_map.
  rewrite (nth_map_in_range _ t nzero nzero) by exact Hi.
  destruct i as [|i]; [reflexivity|].
  cbn [nth elapsed_seconds].
  rewrite (nth_map_in_range _ t nzero nzero) by lia.
  reflexivity.
Qed.
End VelocityFacts.

(** C8.  For a trajectory whose three arrays have one length, and for every
    scalar type, the constructor raises nothing and stores as [velocity] of
    sample i the Euclidean distance between positions i-1 and i (zero for the
    first sample) divided by the time elapsed for that sample in seconds, and
    as [running] of sample i whether that velocity exceeds the threshold,
    which is 10 when none is given. *)
Theorem velocity_and_running :
  forall (F : Type) (N : Numeric F) (t x y : list F) (velocity_threshold : option F),
    length x = length t ->
    length y = length t ->
    exists velocity running,
      init_velocity t x y velocity_threshold = Ok (velocity, running)
      /\ length velocity = length t
      /\ length running = length t
      /\ forall i, i < length t ->
           nth i velocity nzero
           = ndiv (sample_distance x y i) (elapsed_seconds t i)
           /\ nth i running false
              = nlt (threshold_of velocity_threshold) (nth i velocity nzero).
Proof.
  intros F N t x y thr Hx Hy.
  destruct t as [|t0 ts].
  { destruct x, y; try discriminate.
    exists [], []. repeat split; simpl in *; lia. }
  set (t := t0 :: ts) in *.
  destruct (consecutive_dist_padded x y) as (d & Hd & Hdlen & Hdnth);
    [congruence|].
  assert (Hpos : 0 < length t) by (simpl; lia).
  assert (Hdl : length d = length t) by lia.
  set (dt := np_diff_prepend0 (map (fun v => ndiv v (nof_Z 1000)) t)).
  assert (Hdt : length dt = length t).
  { unfold dt, np_diff_prepend0. now rewrite length_diff_from, length_map. }
  unfold init_velocity. rewrite Hd. cbn [rbind]. fold dt.
  rewrite broadcast2_same_length by congruence. cbn [rbind].
  assert (Hv : length (zip_with ndiv d dt) = length t).
  { rewrite length_zip_with by congruence. exact Hdl. }
  eexists _, _. split; [reflexivity|].
  split; [exact Hv|].
  split; [unfold np_gt; now rewrite length_map|].
  intros i Hi.
  assert (Hvi : nth i (zip_with ndiv d dt) nzero
                = ndiv (sample_distance x y i) (elapsed_seconds t i)).
  { rewrite nth_zip_with by (congruence || lia).
    rewrite Hdnth by lia. unfold dt. now rewrite elapsed_from_diff. }
  split; [exact Hvi|].
  unfold np_gt.
  rewrite (nth_map_in_range _ _ false nzero) by lia.
  destruct thr; reflexivity.
Qed.

(** ** The random draw and the circular shift *)

Section RollFacts.
Context {A : Type}.

Lemma np_roll_length (a : list A) (shift : Z) :
  length (np_roll a shift) = length a.
Proof.
  unfold np_roll. destruct (length a) as [|n] eqn:E; [exact E|].
  rewrite length_app, length_skipn, length_firstn. lia.
Qed.

(** Rolling wraps around: the rolled array holds the same entries, none
    dropped and none repeated. *)
Lemma np_roll_permutation (a : list A) (shift : Z) :
  Permutation (np_roll a shift) a.
Proof.
  unfold np_roll. destruct (length a) as [|n]; [reflexivity|].
  set (k := S n - Z.to_nat (shift mod Z.of_nat (S n))).
  rewrite Permutation_app_comm. now rewrite firstn_skipn.
Qed.

(** Rolling by the length of the array changes nothing. *)
Lemma np_roll_full_turn (a : list A) :
  np_roll a (Z.of_nat (length a)) = a.
Proof.
  unfold np_roll. destruct (length a) as [|n] eqn:E; [reflexivity|].
  rewrite Z.mod_same by lia. simpl Z.to_nat. rewrite Nat.sub_0_r.
  rewrite <- E, skipn_all, firstn_all. reflexivity.
Qed.
End RollFacts.

(** [randint a b] raises exactly on an empty range, and otherwise returns a
    value between [a] and [b], both included. *)
Lemma randint_range (a b : Z) (g : rng) :
  if (b <? a)%Z then randint a b g = Raise ValueError
  else exists k, randint a b g = Ok (k, advance g) /\ (a <= k <= b)%Z.
Proof.
  unfold randint. destruct (Z.ltb_spec b a) as [Hlt|Hge]; [reflexivity|].
  eexists; split; [reflexivity|].
  pose proof (Z.mod_pos_bound (tape g (cursor g)) (b - a + 1)). lia.
Qed.

(** Every value of the closed range is drawn from some tape. *)
Lemma randint_reaches (a b k : Z) (g : rng) :
  (a <= k <= b)%Z ->
  tape g (cursor g) = (k - a)%Z ->
  randint a b g = Ok (k, advance g).
Proof.
  intros Hk Ht. unfold randint.
  destruct (Z.ltb_spec b a) as [Hlt|Hge]; [lia|].
  rewrite Ht, Z.mod_small by lia. do 2 f_equal. lia.
Qed.

Section ShuffleFacts.
Context {F : Type} `{Numeric F}.
Variable Bins : Type.
Variable spatial_bin :
  list F -> list F -> option F -> option nat -> option (list F) -> bool ->
  option Bins -> result (list F * Bins).
Variable array_sum : list F -> F.
Variable log2 : F -> F.
Variable self : PlaceFields F Bins.

(** A shuffled place field is the binning of the trace rolled by an offset
    between 300 and the number of samples, both included. *)
Lemma shuffled_place_field neuron g pf g' :
  make_place_field spatial_bin self neuron false true g = Ok (pf, g') ->
  exists k trace,
    (300 <= k <= Z.of_nat (n_cols (data_neural self)))%Z
    /\ get_row (data_neural self) neuron = Ok trace
    /\ bin_activity spatial_bin self (np_roll trace k) false = Ok pf.
Proof.
  unfold make_place_field, shuffled_trace, mbind, lift, mret.
  pose proof (randint_range 300 (Z.of_nat (n_cols (data_neural self))) g) as Hr.
  destruct (_ <? 300)%Z.
  - rewrite Hr. discriminate.
  - destruct Hr as (k & -> & Hk).
    destruct (get_row (data_neural self) neuron) as [trace|e]; [|discriminate].
    destruct (bin_activity _ _ _ _) as [pf0|e] eqn:Eb; [|discriminate].
    intros E. injection E as <- _. now exists k, trace.
Qed.

Lemma shuffle_loop_appends neuron n :
  forall acc g nulls g',
    shuffle_loop spatial_bin array_sum log2 self neuron n acc g = Ok (nulls, g') ->
    exists fresh, nulls = acc ++ fresh /\ length fresh = n
                  /\ Forall (null_value spatial_bin array_sum log2 self neuron) fresh.
Proof.
  induction n as [|n IH]; intros acc g nulls g' E; simpl in E.
  - unfold mret in E. injection E as <- _. exists []. now rewrite app_nil_r.
  - unfold mbind in E.
    destruct (make_place_field _ _ _ _ _ g) as [[pf g1]|e] eqn:Epf; [|discriminate].
    unfold lift in E.
    destruct (spatial_information array_sum log2 pf _) as [s|e] eqn:Es; [|discriminate].
    destruct (IH _ _ _ _ E) as (fresh & -> & Hlen & Hall).
    exists (s :: fresh). rewrite <- app_assoc. split; [reflexivity|].
    split; [simpl; now rewrite Hlen|].
    constructor; [|exact Hall].
    destruct (shuffled_place_field _ _ Epf) as (k & trace & Hk & Hrow & Hbin).
    now exists k, trace, pf.
Qed.

(** Summing a boolean array counts its true entries. *)
Lemma np_sum_bool_counts (si : F) (nulls : list F) :
  np_sum_bool (np_gt nulls si) = Z.of_nat (count_exceeding si nulls).
Proof.
  unfold np_sum_bool, np_gt, count_exceeding.
  enough (Hgen : forall acc,
             fold_left (fun a (b : bool) => if b then (a + 1)%Z else a)
                       (map (fun v => nlt si v) nulls) acc
             = (acc + Z.of_nat (length (filter (fun s => nlt si s) nulls)))%Z)
    by (rewrite Hgen; lia).
  induction nulls as [|v nulls IH]; intros acc; simpl; [lia|].
  rewrite IH. destruct (nlt si v); simpl length; lia.
Qed.

Lemma mask_select_succeeds {A} (a : list A) (mask : list bool) :
length a = length mask -> exists r, mask_select a mask = Ok r.
Proof.
revert mask; induction a as [|v a IH]; intros [|b mask] E; simpl in *;
  try discriminate.
- now exists [].
- destruct (IH mask) as (r & ->); [congruence|]. eexists; reflexivity.
Qed.

Lemma spatial_information_succeeds (pf occupancy : list F) :
length pf = length occupancy ->
exists s, spatial_information array_sum log2 pf occupancy = Ok s.
Proof.
intros E. rewrite spatial_information_same_shape by exact E.
eexists; reflexivity.
Qed.

(** The shuffle test returns: on a recording of 300 samples or more whose
    arrays have one length, and with a binning routine that answers with a
    histogram of the shape of the occupancy map, [assess_spatial_sig] raises
    nothing, whatever the number of shuffles and the random draws. *)
Lemma assess_spatial_sig_returns neuron trace si :
(300 <= Z.of_nat (n_cols (data_neural self)))%Z ->
get_row (data_neural self) neuron = Ok trace ->
length trace = length (data_running self) ->
length (data_x self) = length (data_running self) ->
length (data_y self) = length (data_running self) ->
nth_error (data_spatial_info self) neuron = Some si ->
(forall xr yr w, exists pf b,
    spatial_bin xr yr (meta_bin_size self) (meta_nbins self) (Some w)
                (meta_linearized self) (Some (data_occupancy_bins self))
    = Ok (pf, b)
    /\ length pf = length (data_occupancy_map self)) ->
forall n_shuffles g, exists p_value SI_z g',
  assess_spatial_sig spatial_bin array_sum log2 self neuron n_shuffles g
  = Ok ((p_value, SI_z), g').
Proof.
intros H300 Hrow Htrace Hx Hy Hsi Hbin n_shuffles g.
assert (Hpf : forall g0, exists pf g1,
           make_place_field spatial_bin self neuron false true g0 = Ok (pf, g1)
           /\ length pf = length (data_occupancy_map self)).
{ intros g0. unfold make_place_field, shuffled_trace, mbind, lift, mret.
  pose proof (randint_range 300 (Z.of_nat (n_cols (data_neural self))) g0) as Hr.
  destruct (Z.ltb_spec (Z.of_nat (n_cols (data_neural self))) 300); [lia|].
  destruct Hr as (k & -> & _). rewrite Hrow.
  unfold bin_activity.
  destruct (mask_select_succeeds (data_x self) (data_running self) Hx) as (xr & ->).
  destruct (mask_select_succeeds (data_y self) (data_running self) Hy) as (yr & ->).
  destruct (mask_select_succeeds (np_roll trace k) (data_running self)) as (w & ->);
    [now rewrite np_roll_length|].
  cbn [rbind].
  destruct (Hbin xr yr w) as (pf & b & -> & Hlen). cbn [rbind].
  now exists pf, (advance g0). }
assert (Hloop : forall n acc g0, exists nulls g1,
           shuffle_loop spatial_bin array_sum log2 self neuron n acc g0 = Ok (nulls, g1)).
{ induction n as [|n IH]; intros acc g0; cbn [shuffle_loop].
  - now exists acc, g0.
  - unfold mbind, lift.
    destruct (Hpf g0) as (pf & g1 & -> & Hlen).
    destruct (spatial_information_succeeds pf _ Hlen) as (s & ->).
    apply IH. }
unfold assess_spatial_sig, mbind, lift, mret.
destruct (Hloop (match n_shuffles with Some n => n | None => n_shuffles_default end)
                [] g) as (nulls & g1 & ->).
rewrite Hsi. now eexists _, _, _.
Qed.
End ShuffleFacts.

(** C3.  When [assess_spatial_sig] returns, it has drawn [n_shuffles] null
    values (500 when the argument is left out), each the spatial information
    of a freshly shifted tuning curve; the p-value is the number of null
    values strictly above the neuron's true spatial information divided by
    [n_shuffles], and the z-score is the true value minus the mean of the
    null values, divided by their standard deviation. *)
Theorem shuffle_significance :
  forall (F : Type) (N : Numeric F) (Bins : Type)
         (spatial_bin : list F -> list F -> option F -> option nat ->
                        option (list F) -> bool -> option Bins ->
                        result (list F * Bins))
         (array_sum : list F -> F) (log2 : F -> F) (self : PlaceFields F Bins)
         (neuron : nat) (n_shuffles : option nat) (g g' : rng) (p_value SI_z : F),
    assess_spatial_sig spatial_bin array_sum log2 self neuron n_shuffles g
    = Ok ((p_value, SI_z), g') ->
    let n := match n_shuffles with Some n => n | None => 500 end in
    exists nulls si,
      shuffle_loop spatial_bin array_sum log2 self neuron n [] g = Ok (nulls, g')
      /\ length nulls = n
      /\ Forall (null_value spatial_bin array_sum log2 self neuron) nulls
      /\ nth_error (data_spatial_info self) neuron = Some si
      /\ p_value = ndiv (nof_Z (Z.of_nat (count_exceeding si nulls)))
                        (nof_Z (Z.of_nat n))
      /\ SI_z = ndiv (nsub si (np_mean array_sum nulls)) (np_std array_sum nulls).
Proof.
  intros F N Bins spatial_bin array_sum log2 self neuron n_shuffles g g' p z E n.
  unfold assess_spatial_sig, mbind, lift, mret in E.
  fold n in E. unfold n_shuffles_default in E.
  change (match n_shuffles with Some n0 => n0 | None => 500 end) with n in E.
  destruct (shuffle_loop spatial_bin array_sum log2 self neuron n [] g)
    as [[nulls g1]|e] eqn:Eloop; [|discriminate].
  destruct (nth_error (data_spatial_info self) neuron) as [si|]; [|discriminate].
  injection E as <- <- <-.
  pose proof Eloop as Hloop. apply shuffle_loop_appends in Hloop.
  destruct Hloop as (fresh & Hn & Hlen & Hall).
  simpl in Hn. subst fresh.
  exists nulls, si. repeat split; try assumption; try reflexivity.
  now rewrite np_sum_bool_counts.
Qed.

(** C10.  With fewer than 300 time samples, [make_place_field] with
    [shuffle=True] raises [ValueError] (empty random range), and so does the
    shuffle test; with 300 samples or more the draw raises nothing and
    returns an offset between 300 and the number of samples. *)
Theorem shuffle_needs_300_samples :
  forall (F : Type) (N : Numeric F) (Bins : Type)
         (spatial_bin : list F -> list F -> option F -> option nat ->
                        option (list F) -> bool -> option Bins ->
                        result (list F * Bins))
         (array_sum : list F -> F) (log2 : F -> F)
         (self : PlaceFields F Bins) (neuron : nat) (normalize : bool) (g : rng),
    let n := Z.of_nat (n_cols (data_neural self)) in
    if (n <? 300)%Z
    then make_place_field spatial_bin self neuron normalize true g = Raise ValueError
         /\ assess_spatial_sig spatial_bin array_sum log2 self neuron None g = Raise ValueError
    else exists k, randint 300 n g = Ok (k, advance g) /\ (300 <= k <= n)%Z.
Proof.
  intros F N Bins spatial_bin array_sum log2 self neuron normalize g n.
  pose proof (randint_range 300 n g) as Hr.
  destruct (n <? 300)%Z; [|exact Hr].
  assert (Hraise : forall norm,
             make_place_field spatial_bin self neuron norm true g = Raise ValueError).
  { intros norm. unfold make_place_field, shuffled_trace, mbind. fold n.
    now rewrite Hr. }
  split; [apply Hraise|].
  unfold assess_spatial_sig, n_shuffles_default, mbind.
  cbn [shuffle_loop]. unfold mbind. now rewrite Hraise.
Qed.

(** C2 (the code departs from it).  The offset of the shuffle is drawn from
    300 up to the number of samples included, not excluded: when the draw
    returns the number of samples itself, the roll is a full turn and the
    "shuffled" trace is the trace as recorded. *)
Theorem shuffle_offset_reaches_sample_count :
  forall (F : Type) (Bins : Type) (self : PlaceFields F Bins)
         (neuron : nat) (g : rng) (trace : list F),
    let n := Z.of_nat (n_cols (data_neural self)) in
    get_row (data_neural self) neuron = Ok trace ->
    length trace = n_cols (data_neural self) ->
    (300 <= n)%Z ->
    tape g (cursor g) = (n - 300)%Z ->
    randint 300 n g = Ok (n, advance g)
    /\ ~ (300 <= n < n)%Z
    /\ shuffled_trace self neuron true g = Ok (trace, advance g).
Proof.
  intros F Bins self neuron g trace n Hrow Hlen Hn Htape.
  assert (Hdraw : randint 300 n g = Ok (n, advance g))
    by (apply randint_reaches; [lia | exact Htape]).
  split; [exact Hdraw|]. split; [lia|].
  unfold shuffled_trace, mbind, lift, mret. fold n.
  rewrite Hdraw, Hrow. unfold n. rewrite <- Hlen.
  now rewrite np_roll_full_turn.
Qed.

(** ** The theorems at work on concrete data *)

(** C6 on a curve that is silent in its two visited bins. *)
Lemma spatial_information_silent_neuron_witness :
  let tuning_curve := [Example.fl 0; Example.fl 0; Example.fl 5] in
  let occupancy := [Example.fl 2; Example.fl 1; Example.fl 0] in
  length tuning_curve = length occupancy
  /\ (forall b, In b (visited_bins tuning_curve occupancy) ->
                B64.is_zero (activity b) = true)
  /\ (spatial_information Example.array_sum Example.leading_bit_log2 tuning_curve occupancy
      = Ok (S754_zero false)
      /\ filter has_rate (visited_bins tuning_curve occupancy) = []).
Proof.
  intros tuning_curve occupancy.
  assert (Hlen : length tuning_curve = length occupancy) by reflexivity.
  assert (Hzero : forall b, In b (visited_bins tuning_curve occupancy) ->
                            B64.is_zero (activity b) = true).
  { intros b Hb. vm_compute in Hb. destruct Hb as [<-|[<-|[]]]; reflexivity. }
  split; [exact Hlen|]. split; [exact Hzero|].
  exact (spatial_information_silent_neuron Example.array_sum
           Example.leading_bit_log2
           tuning_curve occupancy Hlen Hzero).
Defined.

(** C4 on the first neuron of the example recording. *)
Lemma normalized_place_field_sentinels_witness :
  let raw := nth 0 Example.placefields [] in
  make_place_field Example.spatial_bin Example.self 0 false false Example.rng0
  = Ok (raw, Example.rng0)
  /\ length raw = length (data_occupancy_map Example.self)
  /\ exists normalized,
      make_place_field Example.spatial_bin Example.self 0 true false Example.rng0
      = Ok (normalized, Example.rng0)
      /\ length normalized = length raw
      /\ forall i, i < length raw ->
           let o := nth i (data_occupancy_map Example.self) nzero in
           let v := nth i normalized nzero in
           v = ndiv (nth i raw nzero) o
           /\ (B64.is_zero o = true ->
               (B64.is_nan v = true \/ B64.is_inf v = true)
               /\ B64.is_zero v = false).
Proof.
  intros raw.
  assert (Hraw : make_place_field Example.spatial_bin Example.self 0 false false
                                  Example.rng0 = Ok (raw, Example.rng0))
    by (vm_compute; reflexivity).
  assert (Hlen : length raw = length (data_occupancy_map Example.self))
    by reflexivity.
  split; [exact Hraw|]. split; [exact Hlen|].
  exact (@normalized_place_field_sentinels _ Example.spatial_bin Example.self 0
           Example.rng0 Example.rng0 raw Hraw Hlen).
Defined.

(** C9 on the example recording, whose third bin is never entered. *)
Lemma centers_at_first_unvisited_bin_witness :
  make_all_place_fields Example.spatial_bin Example.self false Example.rng0
  = Ok (Example.placefields, Example.rng0)
  /\ find_pf_centers Example.self = Ok [2; 2].
Proof.
  assert (Hraw : make_all_place_fields Example.spatial_bin Example.self false
                   Example.rng0 = Ok (Example.placefields, Example.rng0))
    by (vm_compute; reflexivity).
  assert (Hnorm : make_all_place_fields Example.spatial_bin Example.self true
                    Example.rng0
                  = Ok (data_placefields_normalized Example.self, Example.rng0))
    by (vm_compute; reflexivity).
  assert (Hcount : Forall (fun o => B64.is_count o = true)
                          (data_occupancy_map Example.self))
    by (repeat constructor).
  assert (Hex : Exists (fun o => B64.is_zero o = true)
                       (data_occupancy_map Example.self))
    by (do 2 apply Exists_cons_tl; apply Exists_cons_hd; reflexivity).
  assert (Hok : Forall (fun raw => Forall2 B64.raw_bin_ok raw
                                           (data_occupancy_map Example.self))
                       Example.placefields).
  { repeat first [ apply Forall_cons | apply Forall_nil
                 | apply Forall2_cons | apply Forall2_nil ];
      (split; [reflexivity | intros E; first [reflexivity | discriminate E]]). }
  split; [exact Hraw|].
  exact (proj1 (proj2 (@centers_at_first_unvisited_bin _ Example.spatial_bin
                         Example.self Example.rng0 Example.rng0 Example.rng0
                         Example.placefields Hraw Hnorm Hcount Hex Hok))).
Defined.


(** C7 on two positions next to the vertical through the center. *)
Lemma circular_track_coordinates_witness :
  let x := [SFopp Example.two_pow_m52; Example.two_pow_m52] in
  let y := [Example.fl (-1); Example.fl 1] in
  x <> [] /\ length x = length y
  /\ exists x_min x_max y_min y_max x' y' radius,
      py_min x = Ok x_min /\ py_max x = Ok x_max /\
      py_min y = Ok y_min /\ py_max y = Ok y_max /\
      init_circular Example.array_sum B64.pi Example.arctan2_near_axis
                    B64.np_mod x y = Ok (x', y', radius) /\
      y' = repeat (S754_zero false) (length x) /\
      length x' = length x /\
      forall i, i < length x ->
        let center0 := np_mean Example.array_sum [x_min; x_max] in
        let center1 := np_mean Example.array_sum [y_min; y_max] in
        let angle := Example.arctan2_near_axis (nsub (nth i y nzero) center1)
                                               (nsub (nth i x nzero) center0) in
        let turned := nadd angle (ndiv B64.pi (nof_Z 2)) in
        nth i x' nzero = B64.np_mod turned B64.two_pi
        /\ if B64.is_nan turned || B64.is_inf turned
           then nth i x' nzero = S754_nan
           else SFleb (S754_zero false) (nth i x' nzero) = true
                /\ SFleb (nth i x' nzero) B64.two_pi = true.
Proof.
  intros x y.
  assert (Hne : x <> []) by discriminate.
  assert (Hlen : length x = length y) by reflexivity.
  split; [exact Hne|]. split; [exact Hlen|].
  exact (circular_track_coordinates Example.array_sum Example.arctan2_near_axis
           x y Hne Hlen).
Defined.

(** C8 on a 3-4-5 step taken in one second, in binary64. *)
Lemma velocity_and_running_witness :
  let t := [Example.fl 1000; Example.fl 2000] in
  let x := [Example.fl 0; Example.fl 3] in
  let y := [Example.fl 0; Example.fl 4] in
  length x = length t /\ length y = length t
  /\ exists velocity running,
      init_velocity t x y (Some (Example.fl 4)) = Ok (velocity, running)
      /\ length velocity = length t
      /\ length running = length t
      /\ forall i, i < length t ->
           nth i velocity nzero
           = ndiv (sample_distance x y i) (elapsed_seconds t i)
           /\ nth i running false
              = nlt (threshold_of (Some (Example.fl 4))) (nth i velocity nzero).
Proof.
  intros t x y.
  assert (Hx : length x = length t) by reflexivity.
  assert (Hy : length y = length t) by reflexivity.
  split; [exact Hx|]. split; [exact Hy|].
  exact (@velocity_and_running _ B64.numeric t x y (Some (Example.fl 4)) Hx Hy).
Defined.

Example velocity_of_345_step :
  init_velocity [Example.fl 1000; Example.fl 2000]
                [Example.fl 0; Example.fl 3] [Example.fl 0; Example.fl 4] None
  = Ok ([Example.fl 0; Example.fl 5], [false; false])
  /\ init_velocity [Example.fl 1000; Example.fl 2000]
                   [Example.fl 0; Example.fl 3] [Example.fl 0; Example.fl 4]
                   (Some (Example.fl 4))
     = Ok ([Example.fl 0; Example.fl 5], [false; true]).
Proof. split; vm_compute; reflexivity. Qed.

(** C3 on the example recording, with three shuffles. *)
Lemma shuffle_significance_witness :
  let p_value := fst (fst Example.significance) in
  let SI_z := snd (fst Example.significance) in
  let g' := snd Example.significance in
  assess_spatial_sig Example.spatial_bin Example.array_sum
                     Example.leading_bit_log2 Example.self
                     0 (Some 3) Example.rng0
  = Ok ((p_value, SI_z), g')
  /\ exists nulls si,
      shuffle_loop Example.spatial_bin Example.array_sum
                   Example.leading_bit_log2 Example.self
                   0 3 [] Example.rng0 = Ok (nulls, g')
      /\ length nulls = 3
      /\ Forall (null_value Example.spatial_bin Example.array_sum
                            Example.leading_bit_log2
                            Example.self 0) nulls
      /\ nth_error (data_spatial_info Example.self) 0 = Some si
      /\ p_value = ndiv (nof_Z (Z.of_nat (count_exceeding si nulls)))
                        (nof_Z (Z.of_nat 3))
      /\ SI_z = ndiv (nsub si (np_mean Example.array_sum nulls))
                     (np_std Example.array_sum nulls).
Proof.
  intros p_value SI_z g'.
  assert (Hrun : assess_spatial_sig Example.spatial_bin Example.array_sum
                     Example.leading_bit_log2
                   Example.self 0 (Some 3) Example.rng0
                 = Ok ((p_value, SI_z), g'))
    by (vm_compute; reflexivity).
  split; [exact Hrun|].
  exact (@shuffle_significance _ B64.numeric _ Example.spatial_bin
           Example.array_sum Example.leading_bit_log2 Example.self 0 (Some 3) Example.rng0 g'
           p_value SI_z Hrun).
Defined.

(** C2 on the example recording: the draw returns 303, the number of
    samples, and the trace comes back as recorded. *)
Lemma shuffle_offset_reaches_sample_count_witness :
  let trace := nth 0 (rows (data_neural Example.self)) [] in
  let n := Z.of_nat (n_cols (data_neural Example.self)) in
  get_row (data_neural Example.self) 0 = Ok trace
  /\ length trace = n_cols (data_neural Example.self)
  /\ (300 <= n)%Z
  /\ tape Example.rng_last (cursor Example.rng_last) = (n - 300)%Z
  /\ (randint 300 n Example.rng_last = Ok (n, advance Example.rng_last)
      /\ ~ (300 <= n < n)%Z
      /\ shuffled_trace Example.self 0 true Example.rng_last
         = Ok (trace, advance Example.rng_last)).
Proof.
  intros trace n.
  assert (Hrow : get_row (data_neural Example.self) 0 = Ok trace) by reflexivity.
  assert (Hlen : length trace = n_cols (data_neural Example.self))
    by (vm_compute; reflexivity).
  assert (Hn : (300 <= n)%Z) by (vm_compute; discriminate).
  assert (Htape : tape Example.rng_last (cursor Example.rng_last) = (n - 300)%Z)
    by reflexivity.
  split; [exact Hrow|]. split; [exact Hlen|]. split; [exact Hn|].
  split; [exact Htape|].
  exact (@shuffle_offset_reaches_sample_count _ _ Example.self 0 Example.rng_last
           trace Hrow Hlen Hn Htape).
Defined.

(** * Further properties *)

Unset Implicit Arguments.

(** ** Peak bins *)

Section ArgmaxFacts.
Context {F : Type} `{Numeric F}.

Lemma argmax_loop_range (a : list F) :
  forall i mp max_ind, max_ind < i ->
    argmax_loop a i mp max_ind < i + length a.
Proof.
  induction a as [|v a IH]; intros i mp max_ind Hlt; cbn [argmax_loop length].
  - lia.
  - destruct (negb (nle v mp)).
    + destruct (nisnan v); [lia|].
      specialize (IH (S i) v i). lia.
    + specialize (IH (S i) mp max_ind). lia.
Qed.

Lemma np_argmax_range (a : list F) (c : nat) :
  np_argmax a = Ok c -> c < length a.
Proof.
  destruct a as [|v a]; cbn [np_argmax length]; [discriminate|].
  destruct (nisnan v); intros E; injection E as <-; [lia|].
  pose proof (argmax_loop_range a 1 v 0). lia.
Qed.

Lemma argmax_each_spec (pfs : list (list F)) :
  (Forall (fun pf => pf <> []) pfs ->
   exists centers,
     argmax_each pfs = Ok centers
     /\ Forall2 (fun pf c => np_argmax pf = Ok c /\ c < length pf) pfs centers)
  /\ (Exists (fun pf => pf = []) pfs -> argmax_each pfs = Raise ValueError).
Proof.
  induction pfs as [|pf pfs [IHok IHraise]]; split.
  - intros _. exists []. split; [reflexivity | constructor].
  - intros Hex. inversion Hex.
  - intros Hall. inversion Hall as [|? ? Hne Hrest]; subst.
    destruct (IHok Hrest) as (cs & Ecs & Hcs).
    destruct (np_argmax pf) as [c|e] eqn:Ec.
    + exists (c :: cs). cbn [argmax_each]. rewrite Ec, Ecs. cbn [rbind].
      split; [reflexivity|]. constructor; [|exact Hcs].
      split; [exact Ec | now apply np_argmax_range].
    + destruct pf as [|v pf]; [congruence|].
      cbn [np_argmax] in Ec. destruct (nisnan v); discriminate.
  - intros Hex. cbn [argmax_each].
    destruct pf as [|v pf].
    + reflexivity.
    + assert (Hrest : Exists (fun pf => pf = []) pfs)
        by (inversion Hex; subst; [discriminate | assumption]).
      rewrite (IHraise Hrest).
      cbn [np_argmax]. destruct (nisnan v); reflexivity.
Qed.
End ArgmaxFacts.

(** X1.  [find_pf_centers] raises [ValueError] as soon as one normalized
    tuning curve has no bin at all; otherwise it returns one center per
    neuron, in neuron order, each the [np.argmax] of that neuron's curve and a
    valid position in it. *)
Theorem find_pf_centers_in_range :
  forall (F : Type) (N : Numeric F) (Bins : Type) (self : PlaceFields F Bins),
    (Forall (fun pf => pf <> []) (data_placefields_normalized self) ->
     exists centers,
       find_pf_centers self = Ok centers
       /\ Forall2 (fun pf c => np_argmax pf = Ok c /\ c < length pf)
                  (data_placefields_normalized self) centers)
    /\ (Exists (fun pf => pf = []) (data_placefields_normalized self) ->
        find_pf_centers self = Raise ValueError).
Proof.
  intros F N Bins self. unfold find_pf_centers. apply argmax_each_spec.
Qed.

(** ** binary64: the order of the comparisons *)


(** ** binary64: the order of the comparisons *)

Ltac rank_finish :=
  cbn in *; split; intro; first [reflexivity | discriminate | lia].

Module B64Order.
Import B64.

Lemma ltb_leb_rank (x y : spec_float) :
  is_nan x = false -> is_nan y = false ->
  (SFltb x y = true <-> rank_lt (float_rank x) (float_rank y))
  /\ (SFleb x y = true <-> rank_le (float_rank x) (float_rank y)).
Proof.
  intros Hx Hy. unfold SFltb, SFleb.
  destruct x as [sx|sx| |sx mx ex], y as [sy|sy| |sy my ey];
    try discriminate; cbn [SFcompare float_rank].
  all: try (destruct sx; try destruct sy; split; rank_finish).
  all: change (Pos.compare_cont Eq mx my) with (Pos.compare mx my).
  all: destruct (Z.compare_spec ex ey); try subst;
       try destruct (Pos.compare_spec mx my); try subst.
  all: destruct sx, sy; split; rank_finish.
Qed.

Ltac by_rank x y :=
  let H := fresh in
  pose proof (ltb_leb_rank x y) as H.

Lemma leb_refl x : is_nan x = false -> SFleb x x = true.
Proof.
  intros Hx. apply (ltb_leb_rank x x Hx Hx).
  destruct (float_rank x) as [[a b] c]. cbn. lia.
Qed.

Lemma not_leb_ltb v mp :
  is_nan v = false -> is_nan mp = false ->
  SFleb v mp = false -> SFltb mp v = true.
Proof.
  intros Hv Hm Hle.
  apply (ltb_leb_rank mp v Hm Hv).
  assert (Hn : ~ rank_le (float_rank v) (float_rank mp)).
  { intros Hr. apply (ltb_leb_rank v mp Hv Hm) in Hr. congruence. }
  destruct (float_rank v) as [[a b] c], (float_rank mp) as [[a' b'] c'].
  cbn in *. lia.
Qed.

Lemma ltb_leb x y :
  is_nan x = false -> is_nan y = false -> SFltb x y = true -> SFleb x y = true.
Proof.
  intros Hx Hy H. apply (ltb_leb_rank x y Hx Hy).
  apply (ltb_leb_rank x y Hx Hy) in H.
  destruct (float_rank x) as [[a b] c], (float_rank y) as [[a' b'] c'].
  cbn in *. lia.
Qed.

Lemma leb_trans x y z :
  is_nan x = false -> is_nan y = false -> is_nan z = false ->
  SFleb x y = true -> SFleb y z = true -> SFleb x z = true.
Proof.
  intros Hx Hy Hz H1 H2. apply (ltb_leb_rank x z Hx Hz).
  apply (ltb_leb_rank x y Hx Hy) in H1. apply (ltb_leb_rank y z Hy Hz) in H2.
  destruct (float_rank x) as [[a b] c], (float_rank y) as [[a' b'] c'],
           (float_rank z) as [[a'' b''] c''].
  cbn in *. lia.
Qed.

Lemma leb_ltb_trans x y z :
  is_nan x = false -> is_nan y = false -> is_nan z = false ->
  SFleb x y = true -> SFltb y z = true -> SFltb x z = true.
Proof.
  intros Hx Hy Hz H1 H2. apply (ltb_leb_rank x z Hx Hz).
  apply (ltb_leb_rank x y Hx Hy) in H1. apply (ltb_leb_rank y z Hy Hz) in H2.
  destruct (float_rank x) as [[a b] c], (float_rank y) as [[a' b'] c'],
           (float_rank z) as [[a'' b''] c''].
  cbn in *. lia.
Qed.

Lemma ltb_trans x y z :
  is_nan x = false -> is_nan y = false -> is_nan z = false ->
  SFltb x y = true -> SFltb y z = true -> SFltb x z = true.
Proof.
  intros Hx Hy Hz H1 H2.
  apply (leb_ltb_trans x y z); auto using ltb_leb.
Qed.

Lemma ltb_not_nan x y : SFltb x y = true -> is_nan x = false /\ is_nan y = false.
Proof. destruct x, y; cbn; intros E; try discriminate; auto. Qed.

Lemma leb_nan_left mp : SFleb S754_nan mp = false.
Proof. reflexivity. Qed.
End B64Order.

(** ** [np.argmax] on binary64 *)

Module B64Argmax.
Import B64 B64Order.

Lemma argmax_loop_outcome (a : list spec_float) :
  forall i mp mi, is_nan mp = false -> mi < i ->
    loop_outcome a i mp mi (argmax_loop a i mp mi).
Proof.
  induction a as [|v a IH]; intros i mp mi Hmp Hmi.
  - right. split; [constructor|]. left. split; [reflexivity | constructor].
  - cbn [argmax_loop].
    destruct (is_nan v) eqn:Hv.
    + destruct v; try discriminate. cbn.
      left. rewrite Nat.sub_diag. cbn. repeat split; try lia.
    + change (nisnan v) with (is_nan v). rewrite Hv.
      change (nle v mp) with (SFleb v mp).
      destruct (SFleb v mp) eqn:Hle; cbn [negb].
      * (* v <= mp *)
        specialize (IH (S i) mp mi Hmp (Nat.lt_lt_succ_r _ _ Hmi)).
        set (c := argmax_loop a (S i) mp mi) in *.
        destruct IH as [(Hc & Hn & Hpre)|(Hall & [(Hc & Hle')|(Hc & Hlt & Hmax & Hpre)])].
        -- left. replace (c - i) with (S (c - S i)) by lia. cbn [nth length].
           repeat split; try lia; [exact Hn|].
           intros [|j] Hj; [exact Hv | apply Hpre; lia].
        -- right. split; [now constructor|]. left. split; [exact Hc|now constructor].
        -- right. split; [now constructor|]. right.
           replace (c - i) with (S (c - S i)) by lia. cbn [nth length].
           destruct (ltb_not_nan _ _ Hlt) as [_ Hk].
           repeat split; try lia; [exact Hlt| |].
           ++ constructor; [|exact Hmax].
              apply ltb_leb; [exact Hv | exact Hk |].
              exact (leb_ltb_trans v mp _ Hv Hmp Hk Hle Hlt).
           ++ intros [|j] Hj; [|apply Hpre; lia].
              exact (leb_ltb_trans v mp _ Hv Hmp Hk Hle Hlt).
      * (* mp < v *)
        pose proof (not_leb_ltb v mp Hv Hmp Hle) as Hlt0.
        specialize (IH (S i) v i Hv (Nat.lt_succ_diag_r i)).
        set (c := argmax_loop a (S i) v i) in *.
        destruct IH as [(Hc & Hn & Hpre)|(Hall & [(Hc & Hle')|(Hc & Hlt & Hmax & Hpre)])].
        -- left. replace (c - i) with (S (c - S i)) by lia. cbn [nth length].
           repeat split; try lia; [exact Hn|].
           intros [|j] Hj; [exact Hv | apply Hpre; lia].
        -- right. split; [now constructor|]. right.
           rewrite Hc, Nat.sub_diag. cbn [nth length].
           repeat split; try lia; [exact Hlt0|].
           constructor; [now apply leb_refl | exact Hle'].
        -- right. split; [now constructor|]. right.
           replace (c - i) with (S (c - S i)) by lia. cbn [nth length].
           destruct (ltb_not_nan _ _ Hlt) as [_ Hk].
           repeat split; try lia.
           ++ exact (ltb_trans mp v _ Hmp Hv Hk Hlt0 Hlt).
           ++ constructor; [|exact Hmax]. now apply ltb_leb.
           ++ intros [|j] Hj; [exact Hlt | apply Hpre; lia].
Qed.

Lemma np_argmax_peak (a : list spec_float) (c : nat) :
  np_argmax a = Ok c -> peak_bin a c.
Proof.
  destruct a as [|v a]; cbn [np_argmax]; [discriminate|].
  change (nisnan v) with (is_nan v).
  destruct (is_nan v) eqn:Hv; intros E; injection E as <-.
  - split; [cbn; lia|]. left. split; [exact Hv | intros j Hj; lia].
  - pose proof (argmax_loop_outcome a 1 v 0 Hv Nat.lt_0_1) as Hout.
    set (c := argmax_loop a 1 v 0) in *.
    destruct Hout as [(Hc & Hn & Hpre)|(Hall & [(Hc & Hle)|(Hc & Hlt & Hmax & Hpre)])].
    + split; [cbn [length]; lia|]. left.
      replace c with (S (c - 1)) by lia. cbn [nth]. split; [exact Hn|].
      intros [|j] Hj; [exact Hv | apply Hpre; lia].
    + split; [cbn [length]; lia|]. right. rewrite Hc. cbn [nth length].
      split; [now constructor|]. split; [|intros j Hj; lia].
      intros [|j] Hj; [now apply leb_refl|].
      cbn [nth]. rewrite Forall_forall in Hle. apply Hle, nth_In. lia.
    + split; [cbn [length]; lia|]. right.
      replace c with (S (c - 1)) by lia. cbn [nth length].
      destruct (ltb_not_nan _ _ Hlt) as [_ Hk].
      split; [now constructor|]. split.
      * intros [|j] Hj; [now apply ltb_leb|].
        cbn [nth]. rewrite Forall_forall in Hmax. apply Hmax, nth_In. lia.
      * intros [|j] Hj; [exact Hlt | apply Hpre; lia].
Qed.

Lemma argmax_each_peaks (pfs : list (list spec_float)) :
  forall centers, argmax_each pfs = Ok centers -> Forall2 peak_bin pfs centers.
Proof.
  induction pfs as [|pf pfs IH]; intros centers E; cbn [argmax_each] in E.
  - injection E as <-. constructor.
  - destruct (np_argmax pf) as [c|e] eqn:Ec; [|discriminate].
    cbn [rbind] in E.
    destruct (argmax_each pfs) as [cs|e]; [|discriminate].
    cbn [rbind] in E. injection E as <-.
    constructor; [now apply np_argmax_peak | now apply IH].
Qed.
End B64Argmax.

(** X2.  In binary64, every center that [find_pf_centers] reports is the
    first not-a-number bin of that neuron's normalized tuning curve when the
    curve has one, and otherwise the first of the bins holding the curve's
    largest value. *)
Theorem centers_are_peak_bins :
  forall (Bins : Type) (self : PlaceFields spec_float Bins) (centers : list nat),
    find_pf_centers self = Ok centers ->
    Forall2 peak_bin (data_placefields_normalized self) centers.
Proof.
  intros Bins self centers E. unfold find_pf_centers in E.
  now apply B64Argmax.argmax_each_peaks.
Qed.

Lemma centers_are_peak_bins_witness :
  find_pf_centers Example.self = Ok [2; 2]
  /\ Forall2 peak_bin (data_placefields_normalized Example.self) [2; 2].
Proof.
  assert (E : find_pf_centers Example.self = Ok [2; 2]) by reflexivity.
  split; [exact E|].
  exact (centers_are_peak_bins _ Example.self [2; 2] E).
Defined.

(** ** Field bins *)

Lemma where_from_In (mask : list bool) :
  forall i j, In j (where_from i mask)
              <-> exists k, j = i + k /\ k < length mask /\ nth k mask false = true.
Proof.
  induction mask as [|b mask IH]; intros i j; cbn [where_from].
  - split; [intros [] | intros (k & _ & Hk & _); cbn in Hk; lia].
  - assert (Hrest : In j (where_from (S i) mask)
                    <-> exists k, j = i + S k /\ k < length mask
                                  /\ nth k mask false = true).
    { rewrite IH. split; intros (k & Hj & Hk); exists k; split; auto; lia. }
    destruct b; cbn [In]; rewrite ?Hrest; split.
    + intros [<-|(k & Hj & Hk & Hn)].
      * exists 0. cbn. repeat split; lia.
      * exists (S k). cbn. repeat split; auto; lia.
    + intros ([|k] & Hj & Hk & Hn).
      * left. lia.
      * right. exists k. cbn in Hk, Hn. repeat split; auto; lia.
    + intros (k & Hj & Hk & Hn). exists (S k). cbn. repeat split; auto; lia.
    + intros ([|k] & Hj & Hk & Hn); [cbn in Hn; discriminate|].
      exists k. cbn in Hk, Hn. repeat split; auto; lia.
Qed.

Lemma where_from_sorted (mask : list bool) :
  forall i, StronglySorted lt (where_from i mask).
Proof.
  induction mask as [|b mask IH]; intros i; cbn [where_from]; [constructor|].
  destruct b; [|apply IH].
  constructor; [apply IH|].
  apply Forall_forall. intros j Hj.
  apply where_from_In in Hj. destruct Hj as (k & -> & _). lia.
Qed.

Section FieldBinsFacts.
Context {F : Type} `{Numeric F}.

Lemma define_field_bins_nonempty (v : F) (pf : list F) (thr : option F) :
  exists peak bins,
    py_max (v :: pf) = Ok peak
    /\ define_field_bins (v :: pf) thr = Ok bins
    /\ StronglySorted lt bins
    /\ forall j, In j bins
                 <-> j < length (v :: pf)
                     /\ nle (nmul peak (match thr with
                                        | Some w => w
                                        | None => field_threshold_default
                                        end))
                            (nth j (v :: pf) nzero) = true.
Proof.
  unfold define_field_bins. cbn [py_max rbind].
  match goal with
  | |- context [fold_left ?f pf v] => set (peak := fold_left f pf v)
  end.
  set (a := v :: pf).
  exists peak. eexists. split; [reflexivity|]. split; [reflexivity|].
  split; [apply where_from_sorted|].
  intros j. unfold np_where. rewrite where_from_In. unfold np_ge.
  rewrite length_map. cbn [Nat.add]. split.
  - intros (k & -> & Hk & Hn). split; [exact Hk|].
    now rewrite (nth_map_in_range _ a false nzero) in Hn by exact Hk.
  - intros (Hj & Hn). exists j. repeat split; auto.
    now rewrite (nth_map_in_range _ a false nzero) by exact Hj.
Qed.
End FieldBinsFacts.


(** ** Sums of reals *)

Module RSums.
Local Open Scope R_scope.

Lemma fold_left_total (l : list R) :
  forall acc, fold_left Rplus l acc = acc + total l.
Proof.
  induction l as [|v l IH]; intros acc; cbn [fold_left total fold_right].
  - lra.
  - rewrite IH. unfold total. lra.
Qed.

Lemma R_sum_total (l : list R) : R_sum l = total l.
Proof. unfold R_sum. rewrite fold_left_total. lra. Qed.
End RSums.

(** ** What the estimator never reads *)

Section UnvisitedFacts.
Context {F : Type} `{Numeric F}.

Lemma visited_bins_agree (occ : list F) :
  forall tc tc',
    length tc = length occ -> length tc' = length occ ->
    (forall i, i < length occ -> nlt nzero (nth i occ nzero) = true ->
               nth i tc nzero = nth i tc' nzero) ->
    visited_bins tc occ = visited_bins tc' occ.
Proof.
  unfold visited_bins.
  induction occ as [|o occ IH]; intros [|a tc] [|a' tc'] E E' Hag;
    try discriminate; [reflexivity|].
  assert (Hrest : filter is_visited (combine tc occ)
                  = filter is_visited (combine tc' occ)).
  { apply IH; [cbn in E; lia | cbn in E'; lia |].
    intros i Hi Hv. apply (Hag (S i)); [cbn; lia | exact Hv]. }
  cbn [combine filter].
  change (is_visited (a, o)) with (nlt nzero o).
  change (is_visited (a', o)) with (nlt nzero o).
  destruct (nlt nzero o) eqn:Ho.
  - rewrite Hrest.
    assert (Ea : a = a') by (apply (Hag 0); [cbn; lia | exact Ho]).
    now rewrite Ea.
  - exact Hrest.
Qed.
End UnvisitedFacts.

(** X9.  [spatial_information] never looks at the activity of a bin whose
    occupancy is not positive: two tuning curves that agree in every bin with
    occupancy > 0 get the same result, whatever they hold elsewhere
    (not-a-number included), for every scalar type. *)
Theorem spatial_information_ignores_unvisited :
  forall (F : Type) (N : Numeric F) (array_sum : list F -> F) (log2 : F -> F)
         (tuning_curve tuning_curve' occupancy : list F),
    length tuning_curve = length occupancy ->
    length tuning_curve' = length occupancy ->
    (forall i, i < length occupancy ->
               nlt nzero (nth i occupancy nzero) = true ->
               nth i tuning_curve nzero = nth i tuning_curve' nzero) ->
    spatial_information array_sum log2 tuning_curve occupancy
    = spatial_information array_sum log2 tuning_curve' occupancy.
Proof.
  intros F N array_sum log2 tc tc' occ E E' Hag.
  rewrite !spatial_information_same_shape by assumption.
  unfold information_sum.
  now rewrite (visited_bins_agree occ tc tc' E E' Hag).
Qed.

Lemma spatial_information_ignores_unvisited_witness :
  let tc := [Example.fl 4; Example.fl 1; Example.fl 7] in
  let tc' := [Example.fl 4; Example.fl 1; S754_nan] in
  let occ := [Example.fl 2; Example.fl 2; Example.fl 0] in
  length tc = length occ /\ length tc' = length occ
  /\ (forall i, i < length occ -> nlt nzero (nth i occ nzero) = true ->
                nth i tc nzero = nth i tc' nzero)
  /\ spatial_information Example.array_sum Example.leading_bit_log2 tc occ
     = spatial_information Example.array_sum Example.leading_bit_log2 tc' occ.
Proof.
  intros tc tc' occ.
  assert (E : length tc = length occ) by reflexivity.
  assert (E' : length tc' = length occ) by reflexivity.
  assert (Hag : forall i, i < length occ -> nlt nzero (nth i occ nzero) = true ->
                          nth i tc nzero = nth i tc' nzero).
  { intros [|[|[|i]]] Hi Hv; try reflexivity. vm_compute in Hv. discriminate Hv. }
  split; [exact E|]. split; [exact E'|]. split; [exact Hag|].
  exact (spatial_information_ignores_unvisited _ B64.numeric Example.array_sum
           Example.leading_bit_log2 tc tc' occ E E' Hag).
Defined.

(** ** The shuffle *)

Section RollIndex.
Context {A : Type}.

(** Entry [i] of the rolled array is entry [i - shift], counted modulo the
    length, of the array. *)
Lemma np_roll_nth (a : list A) (shift : Z) (d : A) (i : nat) :
  i < length a ->
  nth i (np_roll a shift) d
  = nth (Z.to_nat ((Z.of_nat i - shift) mod Z.of_nat (length a))) a d.
Proof.
  intros Hi. unfold np_roll.
  destruct (length a) as [|n] eqn:En; [lia|].
  set (N := S n) in *.
  assert (Hs : (0 <= shift mod Z.of_nat N < Z.of_nat N)%Z)
    by (apply Z.mod_pos_bound; lia).
  set (s := Z.to_nat (shift mod Z.of_nat N)).
  assert (Hs' : s < N) by (unfold s; lia).
  assert (Hsz : Z.of_nat s = (shift mod Z.of_nat N)%Z) by (unfold s; lia).
  assert (Hshift : shift = (Z.of_nat N * (shift / Z.of_nat N) + Z.of_nat s)%Z).
  { rewrite Hsz. apply Z.div_mod. lia. }
  destruct (Nat.lt_ge_cases i s) as [Hlt|Hge].
  - (* the entries that wrapped around *)
    rewrite app_nth1 by (rewrite length_skipn; lia).
    rewrite nth_skipn. f_equal.
    assert (E : ((Z.of_nat i - shift) mod Z.of_nat N
                 = Z.of_nat (N - s + i))%Z).
    { symmetry. apply (Z.mod_unique _ _ (- (shift / Z.of_nat N) - 1)); [lia|].
      rewrite Hshift at 1. lia. }
    rewrite E. lia.
  - rewrite app_nth2 by (rewrite length_skipn; lia).
    rewrite length_skipn, nth_firstn.
    assert (Hlt' : (i - (length a - (N - s)) <? N - s) = true)
      by (apply Nat.ltb_lt; lia).
    rewrite Hlt'. f_equal.
    assert (E : ((Z.of_nat i - shift) mod Z.of_nat N = Z.of_nat (i - s))%Z).
    { symmetry. apply (Z.mod_unique _ _ (- (shift / Z.of_nat N))); [lia|].
      rewrite Hshift at 1. lia. }
    rewrite E. lia.
Qed.
End RollIndex.

(** X10.  With [shuffle=True] the trace that [make_place_field] bins is a
    rotation of the recorded trace: one random number is drawn, the offset
    lies between 300 and the number of samples, the length and the entries
    are kept (nothing is truncated), and entry i comes from entry
    i - offset, counted modulo the length. *)
Theorem shuffled_trace_is_rotation :
  forall (F : Type) (Bins : Type) (self : PlaceFields F Bins)
         (neuron : nat) (g g' : rng) (shuffled : list F) (d : F),
    shuffled_trace self neuron true g = Ok (shuffled, g') ->
    exists trace k,
      get_row (data_neural self) neuron = Ok trace
      /\ (300 <= k <= Z.of_nat (n_cols (data_neural self)))%Z
      /\ g' = advance g
      /\ length shuffled = length trace
      /\ Permutation shuffled trace
      /\ forall i, i < length trace ->
           nth i shuffled d
           = nth (Z.to_nat ((Z.of_nat i - k) mod Z.of_nat (length trace))) trace d.
Proof.
  intros F Bins self neuron g g' shuffled d E.
  unfold shuffled_trace, mbind, lift, mret in E.
  pose proof (randint_range 300 (Z.of_nat (n_cols (data_neural self))) g) as Hr.
  destruct (_ <? 300)%Z; [rewrite Hr in E; discriminate|].
  destruct Hr as (k & Hk & Hrange). rewrite Hk in E.
  destruct (get_row (data_neural self) neuron) as [trace|e]; [|discriminate].
  injection E as <- <-.
  exists trace, k. repeat split; try lia.
  - apply np_roll_length.
  - apply np_roll_permutation.
  - intros i Hi. now apply np_roll_nth.
Qed.

Lemma shuffled_trace_is_rotation_witness :
  let shuffled := np_roll (nth 0 (rows (data_neural Example.self)) []) 300 in
  shuffled_trace Example.self 0 true Example.rng0
  = Ok (shuffled, advance Example.rng0)
  /\ exists trace k,
      get_row (data_neural Example.self) 0 = Ok trace
      /\ (300 <= k <= Z.of_nat (n_cols (data_neural Example.self)))%Z
      /\ advance Example.rng0 = advance Example.rng0
      /\ length shuffled = length trace
      /\ Permutation shuffled trace
      /\ forall i, i < length trace ->
           nth i shuffled nzero
           = nth (Z.to_nat ((Z.of_nat i - k) mod Z.of_nat (length trace)))
                 trace nzero.
Proof.
  intros shuffled.
  assert (E : shuffled_trace Example.self 0 true Example.rng0
              = Ok (shuffled, advance Example.rng0)) by reflexivity.
  split; [exact E|].
  exact (shuffled_trace_is_rotation _ _ Example.self 0 Example.rng0
           (advance Example.rng0) shuffled nzero E).
Defined.

Lemma total_permutation (l l' : list R) :
  Permutation l l' -> total l = total l'.
Proof.
  induction 1 as [|v l l' _ IH|v w l|l l' l'' _ IH1 _ IH2]; cbn.
  - reflexivity.
  - unfold total in IH. rewrite IH. reflexivity.
  - lra.
  - congruence.
Qed.

(** X11.  In exact real arithmetic the shuffle keeps the total activity:
    the shuffled trace sums to what the recorded trace sums to, for every
    offset that can be drawn. *)
Theorem shuffle_preserves_total_activity :
  forall (Bins : Type) (self : PlaceFields R Bins)
         (neuron : nat) (g g' : rng) (shuffled trace : list R),
    shuffled_trace self neuron true g = Ok (shuffled, g') ->
    get_row (data_neural self) neuron = Ok trace ->
    R_sum shuffled = R_sum trace.
Proof.
  intros Bins self neuron g g' shuffled trace E Hrow.
  unfold shuffled_trace, mbind, lift, mret in E.
  destruct (randint _ _ g) as [[k g1]|e]; [|discriminate].
  rewrite Hrow in E. injection E as <- _.
  rewrite !RSums.R_sum_total. apply total_permutation, np_roll_permutation.
Qed.

Lemma shuffle_preserves_total_activity_witness :
  shuffled_trace ExampleR.self 0 true ExampleR.rng1
  = Ok (np_roll ExampleR.trace 301, advance ExampleR.rng1)
  /\ get_row (data_neural ExampleR.self) 0 = Ok ExampleR.trace
  /\ R_sum (np_roll ExampleR.trace 301) = R_sum ExampleR.trace.
Proof.
  assert (E : shuffled_trace ExampleR.self 0 true ExampleR.rng1
              = Ok (np_roll ExampleR.trace 301, advance ExampleR.rng1))
    by reflexivity.
  assert (Hrow : get_row (data_neural ExampleR.self) 0 = Ok ExampleR.trace)
    by reflexivity.
  split; [exact E|]. split; [exact Hrow|].
  exact (shuffle_preserves_total_activity _ ExampleR.self 0 ExampleR.rng1
           (advance ExampleR.rng1) _ _ E Hrow).
Defined.

(** ** The shuffle test: draws and range *)

Section DrawFacts.
Context {F : Type} `{Numeric F}.
Variable Bins : Type.
Variable spatial_bin :
  list F -> list F -> option F -> option nat -> option (list F) -> bool ->
  option Bins -> result (list F * Bins).
Variable array_sum : list F -> F.
Variable log2 : F -> F.
Variable self : PlaceFields F Bins.

Lemma shuffled_place_field_draws neuron normalize g pf g' :
  make_place_field spatial_bin self neuron normalize true g = Ok (pf, g') ->
  g' = advance g.
Proof.
  unfold make_place_field, shuffled_trace, mbind, lift, mret, randint.
  destruct (_ <? 300)%Z; [discriminate|].
  destruct (get_row (data_neural self) neuron); [|discriminate].
  destruct (bin_activity _ _ _ _); [|discriminate]. congruence.
Qed.

Lemma shuffle_loop_draws neuron n :
  forall acc g nulls g',
    shuffle_loop spatial_bin array_sum log2 self neuron n acc g = Ok (nulls, g') ->
    tape g' = tape g /\ cursor g' = cursor g + n.
Proof.
  induction n as [|n IH]; intros acc g nulls g' E; cbn [shuffle_loop] in E.
  - unfold mret in E. injection E as _ <-. split; [reflexivity | lia].
  - unfold mbind, lift in E.
    destruct (make_place_field _ _ _ _ _ g) as [[pf g1]|e] eqn:Epf; [|discriminate].
    apply shuffled_place_field_draws in Epf. subst g1.
    destruct (spatial_information _ _ _ _) as [s|e]; [|discriminate].
    apply IH in E. destruct E as [Ht Hc]. cbn in Ht, Hc. split; [exact Ht | lia].
Qed.
End DrawFacts.

(** X12.  A shuffle test that returns has drawn exactly [n_shuffles] random
    numbers (500 by default), one per shuffle: the generator has moved on by
    that many draws and is otherwise unchanged. *)
Theorem assess_spatial_sig_draws :
  forall (F : Type) (N : Numeric F) (Bins : Type)
         (spatial_bin : list F -> list F -> option F -> option nat ->
                        option (list F) -> bool -> option Bins ->
                        result (list F * Bins))
         (array_sum : list F -> F) (log2 : F -> F) (self : PlaceFields F Bins)
         (neuron : nat) (n_shuffles : option nat) (g g' : rng) (out : F * F),
    assess_spatial_sig spatial_bin array_sum log2 self neuron n_shuffles g
    = Ok (out, g') ->
    tape g' = tape g
    /\ cursor g' = cursor g + match n_shuffles with Some n => n | None => 500 end.
Proof.
  intros F N Bins spatial_bin array_sum log2 self neuron n_shuffles g g' out E.
  unfold assess_spatial_sig, mbind, lift, mret in E.
  destruct (shuffle_loop _ _ _ _ _ _ _ g) as [[nulls g1]|e] eqn:Eloop; [|discriminate].
  destruct (nth_error _ _); [|discriminate].
  injection E as _ <-.
  apply shuffle_loop_draws in Eloop. exact Eloop.
Qed.

Lemma assess_spatial_sig_draws_witness :
  assess_spatial_sig Example.spatial_bin Example.array_sum
                     Example.leading_bit_log2 Example.self 0 (Some 3) Example.rng0
  = Ok (fst Example.significance, snd Example.significance)
  /\ tape (snd Example.significance) = tape Example.rng0
  /\ cursor (snd Example.significance) = cursor Example.rng0 + 3.
Proof.
  assert (E : assess_spatial_sig Example.spatial_bin Example.array_sum
                Example.leading_bit_log2 Example.self 0 (Some 3) Example.rng0
              = Ok (fst Example.significance, snd Example.significance))
    by (vm_compute; reflexivity).
  split; [exact E|].
  exact (assess_spatial_sig_draws _ B64.numeric _ Example.spatial_bin
           Example.array_sum Example.leading_bit_log2 Example.self 0 (Some 3)
           Example.rng0 _ _ E).
Defined.

(** ** The running filter in binary64 *)

Module B64Velocity.
Import B64.

Lemma div_zero_still (z : spec_float) : zero_or_nan (SFdiv prec emax (S754_zero false) z) = true.
Proof. destruct z as [s|s| |s m e]; reflexivity. Qed.

Lemma still_not_running (thr v : spec_float) :
  SFltb thr (S754_zero false) = false -> zero_or_nan v = true -> SFltb thr v = false.
Proof.
  intros Hthr Hv. destruct v as [s|s| |s m e]; try discriminate.
  - destruct thr as [st|st| |st mt et]; cbn in *; auto.
  - destruct thr; reflexivity.
Qed.

Lemma sub_self (v : spec_float) :
  is_nan v = false -> is_inf v = false -> SFsub prec emax v v = S754_zero false.
Proof.
  destruct v as [s|s| |s m e]; try discriminate; intros _ _.
  - destruct s; reflexivity.
  - cbn [SFsub]. rewrite Z.sub_diag. reflexivity.
Qed.

Lemma euclid_zero :
  euclid (S754_zero false) (S754_zero false) = S754_zero false.
Proof. reflexivity. Qed.

(** The distances an animal that stays put covers. *)
Lemma dist_from_still (x0 y0 : spec_float) (n : nat) :
  is_nan x0 = false -> is_inf x0 = false ->
  is_nan y0 = false -> is_inf y0 = false ->
  dist_from x0 y0 (repeat x0 n) (repeat y0 n) = repeat (S754_zero false) n.
Proof.
  intros Hx Hx' Hy Hy'. induction n as [|n IH]; [reflexivity|].
  cbn [repeat dist_from]. rewrite IH. f_equal.
  change (nsub x0 x0) with (SFsub prec emax x0 x0).
  change (nsub y0 y0) with (SFsub prec emax y0 y0).
  rewrite !sub_self by assumption. apply euclid_zero.
Qed.

Lemma zip_div_zero_still (dt : list spec_float) :
  forall n, Forall (fun v => zero_or_nan v = true)
                   (zip_with ndiv (repeat (S754_zero false) n) dt).
Proof.
  induction dt as [|z dt IH]; intros [|n]; cbn [repeat zip_with]; constructor.
  - apply div_zero_still.
  - apply IH.
Qed.

Lemma np_gt_still (thr : spec_float) (velocity : list spec_float) :
  SFltb thr (S754_zero false) = false ->
  Forall (fun v => zero_or_nan v = true) velocity ->
  np_gt velocity thr = repeat false (length velocity).
Proof.
  intros Hthr. induction 1 as [|v l Hv _ IH]; [reflexivity|].
  cbn [np_gt map length repeat]. unfold np_gt in IH. rewrite IH. f_equal.
  now apply still_not_running.
Qed.
End B64Velocity.

(** X14.  In binary64, an animal that stays at one finite position is never
    running: whatever the timestamps, the constructor raises nothing, every
    velocity is a zero or not-a-number, and with a threshold that is not
    negative (such as the default 10) the running mask is all [False]. *)
Theorem stationary_never_running :
  forall (t : list spec_float) (x0 y0 : spec_float)
         (velocity_threshold : option spec_float),
    B64.is_nan x0 = false -> B64.is_inf x0 = false ->
    B64.is_nan y0 = false -> B64.is_inf y0 = false ->
    SFltb (threshold_of velocity_threshold) (S754_zero false) = false ->
    exists velocity,
      init_velocity t (repeat x0 (length t)) (repeat y0 (length t))
                    velocity_threshold
      = Ok (velocity, repeat false (length t))
      /\ length velocity = length t
      /\ Forall (fun v => zero_or_nan v = true) velocity.
Proof.
  intros t x0 y0 thr Hx Hx' Hy Hy' Hthr.
  unfold init_velocity, consecutive_dist.
  rewrite !repeat_length, Nat.eqb_refl.
  set (dt := np_diff_prepend0 (map (fun v => ndiv v (nof_Z 1000)) t)).
  assert (Hdt : length dt = length t).
  { unfold dt, np_diff_prepend0. now rewrite length_diff_from, length_map. }
  destruct t as [|t0 ts].
  - exists []. repeat split. constructor.
  - cbn [length repeat] in *.
    rewrite (B64Velocity.dist_from_still x0 y0 (length ts) Hx Hx' Hy Hy').
    change (nzero :: repeat (S754_zero false) (length ts))
      with (repeat (S754_zero false) (S (length ts))).
    cbn [rbind]. unfold broadcast2.
    rewrite repeat_length, Hdt, Nat.eqb_refl. cbn [rbind].
    pose proof (B64Velocity.zip_div_zero_still dt (S (length ts))) as Hstill.
    assert (Hlen : length (zip_with ndiv (repeat (S754_zero false) (S (length ts))) dt)
                   = S (length ts)).
    { rewrite length_zip_with; rewrite repeat_length; [reflexivity | now rewrite Hdt]. }
    eexists. split; [|split; [exact Hlen | exact Hstill]].
    do 2 f_equal.
    change (match thr with Some v => v | None => nof_Z velocity_threshold_default end)
      with (threshold_of thr).
    rewrite (B64Velocity.np_gt_still _ _ Hthr Hstill).
    now rewrite Hlen.
Qed.

Lemma stationary_never_running_witness :
  exists velocity,
    init_velocity [B64.of_Z 0; B64.of_Z 50; B64.of_Z 100]
                  (repeat (B64.of_Z 3) 3) (repeat (B64.of_Z 4) 3) None
    = Ok (velocity, repeat false 3)
    /\ length velocity = 3
    /\ Forall (fun v => zero_or_nan v = true) velocity.
Proof.
  exact (stationary_never_running
           [B64.of_Z 0; B64.of_Z 50; B64.of_Z 100] (B64.of_Z 3) (B64.of_Z 4) None
           eq_refl eq_refl eq_refl eq_refl eq_refl).
Defined.

(** X15.  In binary64, the first sample is never running: with coordinate
    arrays of one length, as many timestamps and a threshold that is not
    negative (such as the default 10), the constructor raises nothing and
    the first entry of the running mask is [False], whatever the first
    timestamp is. *)
Theorem first_sample_never_running :
  forall (t x y : list spec_float) (velocity_threshold : option spec_float),
    length x = length y -> length t = length x -> t <> [] ->
    SFltb (threshold_of velocity_threshold) (S754_zero false) = false ->
    exists velocity running,
      init_velocity t x y velocity_threshold = Ok (velocity, false :: running)
      /\ length velocity = length t
      /\ length running = pred (length t).
Proof.
  intros t x y thr Hxy Htx Ht Hthr.
  unfold init_velocity, consecutive_dist.
  rewrite Hxy, Nat.eqb_refl.
  destruct t as [|t0 ts]; [congruence|].
  destruct x as [|vx x]; [discriminate|].
  destruct y as [|vy y]; [discriminate|].
  cbn [length] in *. cbn [rbind map].
  unfold np_diff_prepend0. cbn [diff_from].
  set (d := dist_from vx vy x y).
  set (dt := diff_from _ _).
  assert (Hd : length d = length ts).
  { unfold d. rewrite length_dist_from by congruence. congruence. }
  assert (Hdt : length dt = length ts).
  { unfold dt. now rewrite length_diff_from, length_map. }
  unfold broadcast2. cbn [length].
  rewrite Hd, Hdt, Nat.eqb_refl. cbn [rbind zip_with np_gt map].
  change (match thr with Some v => v | None => nof_Z velocity_threshold_default end)
    with (threshold_of thr).
  assert (Hz : length (zip_with ndiv d dt) = length ts).
  { rewrite length_zip_with; congruence. }
  do 2 eexists. split; [|split].
  - do 2 f_equal. f_equal.
    apply B64Velocity.still_not_running; [exact Hthr|].
    apply B64Velocity.div_zero_still.
  - cbn [length]. now rewrite Hz.
  - now rewrite length_map, Hz.
Qed.

Lemma first_sample_never_running_witness :
  exists velocity running,
    init_velocity [B64.of_Z 0; B64.of_Z 50] [B64.of_Z 0; B64.of_Z 3]
                  [B64.of_Z 0; B64.of_Z 4] None
    = Ok (velocity, false :: running)
    /\ length velocity = 2
    /\ length running = 1.
Proof.
  refine (first_sample_never_running
            [B64.of_Z 0; B64.of_Z 50] [B64.of_Z 0; B64.of_Z 3]
            [B64.of_Z 0; B64.of_Z 4] None eq_refl eq_refl _ eq_refl).
  discriminate.
Defined.

(** ** The circular track: errors *)

(** X16.  The circular branch of the constructor raises [ValueError] on an
    empty trajectory: Python's [min] of an empty x or y has nothing to
    return. *)
Theorem circular_empty_trajectory_raises :
  forall (F : Type) (N : Numeric F) (array_sum : list F -> F) (pi : F)
         (arctan2 np_mod : F -> F -> F) (x y : list F),
    x = [] \/ y = [] ->
    init_circular array_sum pi arctan2 np_mod x y = Raise ValueError.
Proof.
  intros F N array_sum pi arctan2 np_mod x y [-> | ->]; [reflexivity|].
  unfold init_circular.
  destruct x as [|v x]; [reflexivity|]. reflexivity.
Qed.

Lemma circular_empty_trajectory_raises_witness :
  init_circular Example.array_sum B64.pi Example.arctan2_near_axis B64.np_mod
                [] []
  = Raise ValueError.
Proof.
  exact (circular_empty_trajectory_raises spec_float _ Example.array_sum B64.pi
           Example.arctan2_near_axis B64.np_mod [] [] (or_introl eq_refl)).
Defined.

Module B64Integers.
Import B64.

Lemma digits_iter_xO (p k : positive) :
  digits2_pos (Pos.iter xO p k) = (digits2_pos p + k)%positive.
Proof.
  induction k as [|k IH] using Pos.peano_ind.
  - cbn. lia.
  - rewrite Pos.iter_succ. cbn [digits2_pos]. rewrite IH. lia.
Qed.

Lemma digits_is_size (p : positive) : digits2_pos p = Pos.size p.
Proof. induction p as [p IH|p IH|]; cbn; now rewrite ?IH. Qed.

Lemma digits_small (p : positive) :
  (Zpos p < 2 ^ 53)%Z -> (Zpos (digits2_pos p) <= 53)%Z.
Proof.
  intros Hp. rewrite digits_is_size.
  pose proof (Pos.size_le p) as Hs.
  assert (H2 : (2 ^ Zpos (Pos.size p) <= 2 * Zpos p)%Z).
  { rewrite <- Pos2Z.inj_pow. change (2 * Zpos p)%Z with (Zpos (p~0)). lia. }
  destruct (Z_le_gt_dec (Zpos (Pos.size p)) 53) as [|Hgt]; [assumption|].
  assert (H3 : (2 ^ 54 <= 2 ^ Zpos (Pos.size p))%Z)
    by (apply Z.pow_le_mono_r; lia).
  change (2 ^ 54)%Z with (2 * 2 ^ 53)%Z in H3. lia.
Qed.

(** A mantissa of 53 bits with an exponent in range is left as it is. *)
Lemma round_aux_exact (m : positive) (e : Z) :
  digits2_pos m = 53%positive -> (-1074 <= e <= 971)%Z ->
  binary_round_aux prec emax false (Zpos m) e loc_Exact = S754_finite false m e.
Proof.
  intros Hm He.
  assert (Hshift : (fexp prec emax (Zdigits2 (Zpos m) + e) - e = 0)%Z).
  { unfold fexp, emin, prec, emax. cbn [Zdigits2]. rewrite Hm. lia. }
  unfold binary_round_aux, shr_fexp.
  rewrite Hshift. cbn [shr shr_record_of_loc shr_m loc_of_shr_record round_nearest_even].
  rewrite Hshift. cbn [shr shr_record_of_loc shr_m].
  replace (e <=? emax - prec)%Z with true; [reflexivity|].
  symmetry. apply Z.leb_le. unfold emax, prec. lia.
Qed.

(** Counts below 2^53 are binary64 numbers above zero. *)
Lemma of_Z_small_positive (p : positive) :
  (Zpos p < 2 ^ 53)%Z -> exists m e, of_Z (Zpos p) = S754_finite false m e.
Proof.
  intros Hp. pose proof (digits_small p Hp) as Hd.
  unfold of_Z, binary_normalize, binary_round, shl_align.
  rewrite Z.add_0_r, Z.sub_0_r.
  assert (Hf : fexp prec emax (Zpos (digits2_pos p)) = (Zpos (digits2_pos p) - 53)%Z).
  { unfold fexp, emin, prec, emax. lia. }
  rewrite Hf.
  destruct (Zpos (digits2_pos p) - 53)%Z as [|q|q] eqn:Eq; [| lia |].
  - exists p, 0%Z. apply round_aux_exact; [lia | lia].
  - exists (Pos.iter xO p q), (Zneg q). apply round_aux_exact; [|lia].
    rewrite digits_iter_xO. lia.
Qed.
End B64Integers.

Module B64Rate.
Import B64.

Lemma diff_from_constant (v : spec_float) (n : nat) :
  is_nan v = false -> is_inf v = false ->
  diff_from v (repeat v n) = repeat (S754_zero false) n.
Proof.
  intros Hn Hi. induction n as [|n IH]; [reflexivity|].
  cbn [repeat diff_from]. rewrite IH. f_equal.
  now apply B64Velocity.sub_self.
Qed.
End B64Rate.

(** X19.  In binary64, a recording of fewer than two timestamps has no
    intervals to average: the mean of none is not-a-number, and [get_fps]
    raises [ValueError] when it rounds it. *)
Theorem get_fps_needs_two_timestamps :
  forall (array_sum : list spec_float -> spec_float) (t : list spec_float),
    array_sum [] = S754_zero false ->
    length t <= 1 ->
    get_fps array_sum b64_round t = RoundNaN.
Proof.
  intros array_sum t Hsum Hlen.
  assert (Hdiff : np_diff t = []).
  { destruct t as [|v [|w t]]; [reflexivity | reflexivity | cbn in Hlen; lia]. }
  unfold get_fps, np_mean. rewrite Hdiff, Hsum. reflexivity.
Qed.

Lemma get_fps_needs_two_timestamps_witness :
  get_fps Example.array_sum b64_round [B64.of_Z 40] = RoundNaN.
Proof.
  refine (get_fps_needs_two_timestamps Example.array_sum [B64.of_Z 40] eq_refl _).
  cbn. lia.
Defined.

(** X20.  In binary64, two or more timestamps that are all the same finite
    value (fewer than 2^53 of them) give a mean interval of zero, an infinite
    rate, and [get_fps] raises [OverflowError] when it rounds it. *)
Theorem get_fps_constant_timestamps :
  forall (array_sum : list spec_float -> spec_float) (v : spec_float) (n : nat),
    B64.is_nan v = false -> B64.is_inf v = false ->
    2 <= n -> (Z.of_nat n <= 2 ^ 53)%Z ->
    array_sum (repeat (S754_zero false) (n - 1)) = S754_zero false ->
    get_fps array_sum b64_round (repeat v n) = RoundInfinite.
Proof.
  intros array_sum v n Hnan Hinf Hn Hbig Hsum.
  destruct n as [|n]; [lia|].
  replace (S n - 1) with n in Hsum by lia.
  unfold get_fps, np_mean. cbn [repeat np_diff].
  rewrite (B64Rate.diff_from_constant v n Hnan Hinf), Hsum, repeat_length.
  destruct n as [|n]; [lia|].
  destruct (B64Integers.of_Z_small_positive (Pos.of_succ_nat n)) as (m & e & Hcount).
  { lia. }
  change (nof_Z (Z.of_nat (S n))) with (B64.of_Z (Zpos (Pos.of_succ_nat n))).
  rewrite Hcount. reflexivity.
Qed.

Lemma get_fps_constant_timestamps_witness :
  get_fps Example.array_sum b64_round (repeat (B64.of_Z 40) 3) = RoundInfinite.
Proof.
  refine (get_fps_constant_timestamps Example.array_sum (B64.of_Z 40) 3
            eq_refl eq_refl _ _ eq_refl).
  - lia.
  - cbn. lia.
Defined.

(** ** All place fields at once *)

Section AllRowsFacts.
Context {F : Type} `{Numeric F} {Bins : Type}.
Variable spatial_bin :
  list F -> list F -> option F -> option nat -> option (list F) -> bool ->
  option Bins -> result (list F * Bins).
Variable self : PlaceFields F Bins.

Lemma place_fields_from_rows (normalize : bool) (g : rng) (count : nat) :
  forall neuron,
    (forall i, neuron <= i < neuron + count ->
       exists pf, make_place_field spatial_bin self i normalize false g = Ok (pf, g)) ->
    exists pfs,
      place_fields_from spatial_bin self neuron count normalize g = Ok (pfs, g)
      /\ length pfs = count
      /\ forall j, j < count ->
           make_place_field spatial_bin self (neuron + j) normalize false g
           = Ok (nth j pfs [], g).
Proof.
  induction count as [|count IH]; intros neuron Hall.
  - exists []. repeat split. intros j Hj. lia.
  - destruct (Hall neuron) as (pf & Epf); [lia|].
    destruct (IH (S neuron)) as (pfs & Epfs & Hlen & Hnth).
    { intros i Hi. apply Hall. lia. }
    exists (pf :: pfs). cbn [place_fields_from]. unfold mbind, mret.
    rewrite Epf, Epfs. repeat split.
    + cbn [length]. now rewrite Hlen.
    + intros [|j] Hj.
      * now rewrite Nat.add_0_r.
      * cbn [nth]. rewrite <- Nat.add_succ_comm. apply Hnth. lia.
Qed.
End AllRowsFacts.

(** X21.  When the place field of every neuron can be made,
    [make_all_place_fields] returns one field per row of the activity matrix,
    in the order of the rows, each the field [make_place_field] gives for
    that neuron without shuffling, and the random generator is left as it
    was. *)
Theorem make_all_place_fields_rows :
  forall (F : Type) (N : Numeric F) (Bins : Type)
         (spatial_bin : list F -> list F -> option F -> option nat ->
                        option (list F) -> bool -> option Bins ->
                        result (list F * Bins))
         (self : PlaceFields F Bins) (normalize : bool) (g : rng),
    (forall i, i < length (rows (data_neural self)) ->
       exists pf, make_place_field spatial_bin self i normalize false g = Ok (pf, g)) ->
    exists pfs,
      make_all_place_fields spatial_bin self normalize g = Ok (pfs, g)
      /\ length pfs = length (rows (data_neural self))
      /\ forall i, i < length (rows (data_neural self)) ->
           make_place_field spatial_bin self i normalize false g
           = Ok (nth i pfs [], g).
Proof.
  intros F N Bins spatial_bin self normalize g Hall.
  unfold make_all_place_fields.
  apply (place_fields_from_rows spatial_bin self normalize g
           (length (rows (data_neural self))) 0).
  intros i Hi. apply Hall. lia.
Qed.

Lemma make_all_place_fields_rows_witness :
  exists pfs,
    make_all_place_fields Example.spatial_bin Example.self true Example.rng0
    = Ok (pfs, Example.rng0)
    /\ length pfs = length (rows (data_neural Example.self))
    /\ forall i, i < length (rows (data_neural Example.self)) ->
         make_place_field Example.spatial_bin Example.self i true false Example.rng0
         = Ok (nth i pfs [], Example.rng0).
Proof.
  refine (make_all_place_fields_rows spec_float _ _
            Example.spatial_bin Example.self true Example.rng0 _).
  intros i Hi.
  destruct i as [|[|i]]; [| | exfalso; cbn in Hi; lia].
  - exists (nth 0 Example.placefields_normalized []). vm_compute. reflexivity.
  - exists (nth 1 Example.placefields_normalized []). vm_compute. reflexivity.
Defined.

(** ** The shuffle test without shuffles *)

(** X22.  In binary64, a shuffle test asked for zero shuffles draws nothing
    and raises nothing for a neuron that has a spatial information: it
    divides zero by zero, and returns not-a-number both as p-value and as
    z-score. *)
Theorem zero_shuffles_give_nan :
  forall (Bins : Type)
         (spatial_bin : list spec_float -> list spec_float -> option spec_float ->
                        option nat -> option (list spec_float) -> bool ->
                        option Bins -> result (list spec_float * Bins))
         (array_sum : list spec_float -> spec_float)
         (log2 : spec_float -> spec_float)
         (self : PlaceFields spec_float Bins) (neuron : nat) (si : spec_float)
         (g : rng),
    array_sum [] = S754_zero false ->
    nth_error (data_spatial_info self) neuron = Some si ->
    assess_spatial_sig spatial_bin array_sum log2 self neuron (Some 0) g
    = Ok ((S754_nan, S754_nan), g).
Proof.
  intros Bins spatial_bin array_sum log2 self neuron si g Hsum Hsi.
  unfold assess_spatial_sig. cbn [shuffle_loop].
  unfold mbind, mret, lift. rewrite Hsi.
  unfold np_std, np_mean. cbn [map length np_gt]. rewrite Hsum.
  do 2 f_equal. f_equal.
  change (ndiv (nsub si S754_nan) S754_nan = S754_nan).
  destruct si as [s|s| |s m e]; reflexivity.
Qed.

Lemma zero_shuffles_give_nan_witness :
  assess_spatial_sig Example.spatial_bin Example.array_sum
                     Example.leading_bit_log2 Example.self 0 (Some 0) Example.rng0
  = Ok ((S754_nan, S754_nan), Example.rng0).
Proof.
  exact (zero_shuffles_give_nan _ Example.spatial_bin Example.array_sum
           Example.leading_bit_log2 Example.self 0
           (nth 0 Example.spatial_info S754_nan) Example.rng0 eq_refl eq_refl).
Defined.
